(** * A shallow embedding of [api/index.js]

    The Express application of [api/index.js] is a facade over three MongoDB
    collections.  Every route handler is an [async] function whose body is a
    [try]/[catch]; it is embedded here as a computation in a small monad that
    threads the process globals ([db], [isConnected]) together with the content
    of the store, and that can throw.  What the handlers cannot decide by
    themselves -- whether [client.connect()] resolves, whether a collection
    operation resolves, what [new Date()] returns, which identifier the driver
    generates -- is read from a per-request environment.

    A request is served in one step: the [await]s of one handler are not
    interleaved with those of another, except in the account of [connectDB]
    around its [await] below.  [console.log] and [console.error] leave no
    trace here.  The body of a contact request is the object that
    [express.json()] has parsed. *)

From Stdlib Require Import List Bool Arith ZArith NArith Lia String Ascii.
From Stdlib Require Import Permutation Sorted.
Import ListNotations.

Set Implicit Arguments.
Open Scope string_scope.
Open Scope list_scope.

(** ** JavaScript strings *)

(** A JavaScript string is a sequence of UTF-16 code units. *)
Definition jsstring := list N.

(** The string written in the source as an ASCII literal. *)
Definition js (s : string) : jsstring :=
  List.map N_of_ascii (list_ascii_of_string s).

(** The code units matched by [\s], which are also the ones that
    [String.prototype.trim] strips: WhiteSpace and LineTerminator. *)
Definition is_ws (c : N) : bool :=
  ((9 <=? c) && (c <=? 13) || (c =? 32) || (c =? 160) || (c =? 5760)
   || (8192 <=? c) && (c <=? 8202) || (c =? 8232) || (c =? 8233)
   || (c =? 8239) || (c =? 8287) || (c =? 12288) || (c =? 65279))%N.

Fixpoint trimStart (s : jsstring) : jsstring :=
  match s with
  | c :: s' => if is_ws c then trimStart s' else s
  | [] => []
  end.

Definition trimEnd (s : jsstring) : jsstring := rev (trimStart (rev s)).

(** [s.trim()] *)
Definition trim (s : jsstring) : jsstring := trimEnd (trimStart s).

(** ** Regular expressions

    The fragment of regular expressions used by the contact form, matched by
    Brzozowski derivatives.  A whole-string match corresponds to a pattern
    anchored by [^] and [$]. *)
Module Regex.

Inductive t : Type :=
| Void
| Eps
| Class (p : N -> bool)
| Seq (r1 r2 : t)
| Alt (r1 r2 : t)
| Star (r : t).

Definition Chr (c : string) : t :=
  Class (fun x => existsb (N.eqb x) (js c)).
Definition Plus (r : t) : t := Seq r (Star r).

Fixpoint nullable (r : t) : bool :=
  match r with
  | Void => false
  | Eps => true
  | Class _ => false
  | Seq r1 r2 => nullable r1 && nullable r2
  | Alt r1 r2 => nullable r1 || nullable r2
  | Star _ => true
  end.

Fixpoint deriv (c : N) (r : t) : t :=
  match r with
  | Void => Void
  | Eps => Void
  | Class p => if p c then Eps else Void
  | Seq r1 r2 =>
      if nullable r1
      then Alt (Seq (deriv c r1) r2) (deriv c r2)
      else Seq (deriv c r1) r2
  | Alt r1 r2 => Alt (deriv c r1) (deriv c r2)
  | Star r1 => Seq (deriv c r1) (Star r1)
  end.

Fixpoint matches (r : t) (s : jsstring) : bool :=
  match s with
  | [] => nullable r
  | c :: s' => matches (deriv c r) s'
  end.

(** The language of a regular expression, as a relation. *)
Inductive lang : t -> jsstring -> Prop :=
| lang_eps : lang Eps []
| lang_class p c : p c = true -> lang (Class p) [c]
| lang_seq r1 r2 s1 s2 : lang r1 s1 -> lang r2 s2 -> lang (Seq r1 r2) (s1 ++ s2)
| lang_alt_l r1 r2 s : lang r1 s -> lang (Alt r1 r2) s
| lang_alt_r r1 r2 s : lang r2 s -> lang (Alt r1 r2) s
| lang_star_nil r : lang (Star r) []
| lang_star_cons r s1 s2 :
    lang r s1 -> lang (Star r) s2 -> lang (Star r) (s1 ++ s2).

End Regex.

(** [[^\s@]]: any code unit that is neither white space nor [@]. *)
Definition not_ws_at (c : N) : bool := negb (is_ws c) && negb (c =? 64)%N.

(** [const emailRegex = /^[^\s@]+@[^\s@]+\.[^\s@]+$/] *)
Definition emailRegex : Regex.t :=
  Regex.Seq (Regex.Plus (Regex.Class not_ws_at))
    (Regex.Seq (Regex.Chr "@")
       (Regex.Seq (Regex.Plus (Regex.Class not_ws_at))
          (Regex.Seq (Regex.Chr ".")
             (Regex.Plus (Regex.Class not_ws_at))))).

(** ** Documents *)

(** An [ObjectId] is its sequence of bytes. *)
Definition ObjectId := list N.

(** The values a document of the store can hold in a field. *)
Inductive value : Type :=
| VNull
| VNum (n : Z)
| VStr (s : jsstring)
| VOid (o : ObjectId)
| VBool (b : bool)
| VDate (ms : Z).

Fixpoint codes_eqb (a b : list N) : bool :=
  match a, b with
  | [], [] => true
  | x :: a', y :: b' => (x =? y)%N && codes_eqb a' b'
  | _, _ => false
  end.

Definition value_eqb (a b : value) : bool :=
  match a, b with
  | VNull, VNull => true
  | VNum x, VNum y => (x =? y)%Z
  | VStr x, VStr y => codes_eqb x y
  | VOid x, VOid y => codes_eqb x y
  | VBool x, VBool y => Bool.eqb x y
  | VDate x, VDate y => (x =? y)%Z
  | _, _ => false
  end.

(** A document is an ordered sequence of named fields. *)
Definition doc := list (string * value).

Fixpoint field (k : string) (d : doc) : option value :=
  match d with
  | [] => None
  | (k', v) :: d' => if String.eqb k k' then Some v else field k d'
  end.

(** One assignment of a [$set] update: an existing field is overwritten in
    place, a new one is added at the end. *)
Fixpoint set_field (k : string) (v : value) (d : doc) : doc :=
  match d with
  | [] => [(k, v)]
  | (k', v') :: d' =>
      if String.eqb k k' then (k, v) :: d' else (k', v') :: set_field k v d'
  end.

Definition set_fields (upd : list (string * value)) (d : doc) : doc :=
  fold_left (fun acc kv => set_field (fst kv) (snd kv) acc) upd d.

(** [Object.keys(d)] *)
Definition keys (d : doc) : list string := List.map fst d.

(** The filter [{ _id: v }]; [{}] is [None]. *)
Definition query := option value.

Definition matches (q : query) (d : doc) : bool :=
  match q with
  | None => true
  | Some v =>
      match field "_id" d with
      | Some x => value_eqb x v
      | None => false
      end
  end.

(** ** The order of the store on values

    Values of different types are ordered by type (null, numbers, strings,
    object identifiers, booleans, dates), values of one type by content.  A
    document without the sort field sorts as null. *)
Definition bson_code (v : value) : list Z :=
  match v with
  | VNull => [5]
  | VNum n => [10; n]
  | VStr s => 15 :: List.map Z.of_N s
  | VOid o => 35 :: List.map Z.of_N o
  | VBool b => [40; if b then 1 else 0]
  | VDate ms => [45; ms]
  end%Z.

Fixpoint lex_leb (a b : list Z) : bool :=
  match a, b with
  | [], _ => true
  | _ :: _, [] => false
  | x :: a', y :: b' =>
      if (x <? y)%Z then true
      else if (y <? x)%Z then false
      else lex_leb a' b'
  end.

Definition bson_leb (a b : value) : bool := lex_leb (bson_code a) (bson_code b).

Definition sort_key (k : string) (d : doc) : value :=
  match field k d with
  | Some v => v
  | None => VNull
  end.

(** ** Sorting *)
Section Sorting.

Variable A : Type.
Variable leb : A -> A -> bool.

Fixpoint insert (x : A) (l : list A) : list A :=
  match l with
  | [] => [x]
  | y :: l' => if leb x y then x :: l else y :: insert x l'
  end.

Fixpoint isort (l : list A) : list A :=
  match l with
  | [] => []
  | x :: l' => insert x (isort l')
  end.

End Sorting.

(** [.sort({ k: dir })]: descending when [dir] is negative. *)
Definition sort_leb (k : string) (dir : Z) (a b : doc) : bool :=
  if (dir <? 0)%Z then bson_leb (sort_key k b) (sort_key k a)
  else bson_leb (sort_key k a) (sort_key k b).

Definition sort (k : string) (dir : Z) (l : list doc) : list doc :=
  isort (sort_leb k dir) l.

(** ** The store and the process *)

(** [PODCASTS_COLLECTION], [VIDEOS_COLLECTION] and [MESSAGES_COLLECTION]. *)
Inductive collection : Type :=
| PODCASTS_COLLECTION
| VIDEOS_COLLECTION
| MESSAGES_COLLECTION.

Definition collection_name (c : collection) : jsstring :=
  match c with
  | PODCASTS_COLLECTION => js "podcasts"
  | VIDEOS_COLLECTION => js "videos"
  | MESSAGES_COLLECTION => js "messages"
  end.

(** The object returned by [client.db(DB_NAME)].  Each call of [client.db]
    makes a new object; it is identified by the number of the call of
    [client.connect()] it follows. *)
Record Db : Type := { handle : nat }.

(** The globals of the module, [db] and [isConnected], the number of calls of
    [client.connect()] made so far, and the three collections of the
    database. *)
Record World : Type := {
  db : option Db;
  isConnected : bool;
  connects : nat;
  podcasts : list doc;
  videos : list doc;
  messages : list doc
}.

Definition documents (c : collection) (w : World) : list doc :=
  match c with
  | PODCASTS_COLLECTION => podcasts w
  | VIDEOS_COLLECTION => videos w
  | MESSAGES_COLLECTION => messages w
  end.

Definition set_documents (c : collection) (l : list doc) (w : World) : World :=
  match c with
  | PODCASTS_COLLECTION =>
      {| db := db w; isConnected := isConnected w; connects := connects w;
         podcasts := l; videos := videos w; messages := messages w |}
  | VIDEOS_COLLECTION =>
      {| db := db w; isConnected := isConnected w; connects := connects w;
         podcasts := podcasts w; videos := l; messages := messages w |}
  | MESSAGES_COLLECTION =>
      {| db := db w; isConnected := isConnected w; connects := connects w;
         podcasts := podcasts w; videos := videos w; messages := l |}
  end.

(** A process that has just started, over a database with the given content. *)
Definition start (ps vs ms : list doc) : World :=
  {| db := None; isConnected := false; connects := 0;
     podcasts := ps; videos := vs; messages := ms |}.

(** The operations of the driver on a collection. *)
Inductive operation : Type :=
| OpFind
| OpFindOne
| OpInsertOne
| OpUpdateOne
| OpCountDocuments.

(** What a request meets outside of the program: whether [client.connect()]
    resolves, whether each operation on each collection resolves, the message
    of the error thrown when one does not, the instant [new Date()] returns
    (in milliseconds) and the identifier the driver generates for an inserted
    document. *)
Record env : Type := {
  connect_ok : bool;
  op_ok : operation -> collection -> bool;
  failure : jsstring;
  now : Z;
  newId : ObjectId
}.

(** ** Computations that can throw *)

Inductive Result (A : Type) : Type :=
| Ok (a : A)
| Throw (message : jsstring).
Arguments Throw {A} message.

Definition M (A : Type) : Type := World -> Result A * World.

Definition ret {A} (a : A) : M A := fun w => (Ok a, w).
Definition throw {A} (message : jsstring) : M A := fun w => (Throw message, w).
Definition bind {A B} (m : M A) (k : A -> M B) : M B :=
  fun w =>
    match m w with
    | (Ok a, w') => k a w'
    | (Throw e, w') => (Throw e, w')
    end.
(** [try { m } catch (error) { h error }] *)
Definition try_catch {A} (m : M A) (h : jsstring -> M A) : M A :=
  fun w =>
    match m w with
    | (Ok a, w') => (Ok a, w')
    | (Throw e, w') => h e w'
    end.
Definition get : M World := fun w => (Ok w, w).
Definition put (w : World) : M unit := fun _ => (Ok tt, w).

Declare Scope js_scope.
Delimit Scope js_scope with js.
Notation "x <- m ;; k" := (bind m (fun x => k))
  (at level 61, m at next level, right associativity) : js_scope.
Notation "m ;; k" := (bind m (fun _ => k))
  (at level 61, right associativity) : js_scope.
Notation "'try' m 'catch' h" := (try_catch m h)
  (at level 62, m at level 61, h at level 61) : js_scope.
Open Scope js_scope.

(** ** The driver

    The calls of the MongoDB driver the program makes, with the behaviour
    the driver and the server document for them. *)

(** [await client.connect()] *)
Definition client_connect (e : env) : M unit :=
  w <- get ;;
  put {| db := db w; isConnected := isConnected w; connects := S (connects w);
         podcasts := podcasts w; videos := videos w; messages := messages w |} ;;
  if connect_ok e then ret tt else throw (failure e).

(** [client.db(DB_NAME)] *)
Definition client_db : M Db :=
  w <- get ;; ret {| handle := connects w |}.

Definition set_db (d : Db) : M unit :=
  w <- get ;;
  put {| db := Some d; isConnected := isConnected w; connects := connects w;
         podcasts := podcasts w; videos := videos w; messages := messages w |}.

Definition set_isConnected (b : bool) : M unit :=
  w <- get ;;
  put {| db := db w; isConnected := b; connects := connects w;
         podcasts := podcasts w; videos := videos w; messages := messages w |}.

(** A cursor: [collection.find(q)], then [.sort(...)]. *)
Record cursor : Type := {
  cursor_collection : collection;
  cursor_filter : query;
  cursor_sort : option (string * Z)
}.

Definition find (c : collection) (q : query) : cursor :=
  {| cursor_collection := c; cursor_filter := q; cursor_sort := None |}.

Definition sort_cursor (cur : cursor) (k : string) (dir : Z) : cursor :=
  {| cursor_collection := cursor_collection cur;
     cursor_filter := cursor_filter cur;
     cursor_sort := Some (k, dir) |}.

(** [await cursor.toArray()] *)
Definition toArray (e : env) (cur : cursor) : M (list doc) :=
  if op_ok e OpFind (cursor_collection cur) then
    w <- get ;;
    let found :=
      filter (matches (cursor_filter cur)) (documents (cursor_collection cur) w) in
    ret match cursor_sort cur with
        | Some (k, dir) => sort k dir found
        | None => found
        end
  else throw (failure e).

(** [await collection.findOne(q)]: the first document that matches, [null]
    when there is none. *)
Definition findOne (e : env) (c : collection) (q : query) : M (option doc) :=
  if op_ok e OpFindOne c then
    w <- get ;; ret (List.find (matches q) (documents c w))
  else throw (failure e).

(** [await collection.countDocuments(q)] *)
Definition countDocuments (e : env) (c : collection) (q : query) : M nat :=
  if op_ok e OpCountDocuments c then
    w <- get ;; ret (List.length (filter (matches q) (documents c w)))
  else throw (failure e).

(** [await collection.insertOne(d)]: a document without [_id] receives the
    generated identifier; the index on [_id] refuses a second document with
    the same identifier.  The result is [insertedId]. *)
Definition insertOne (e : env) (c : collection) (d : doc) : M value :=
  if op_ok e OpInsertOne c then
    w <- get ;;
    let d' := match field "_id" d with
              | Some _ => d
              | None => ("_id", VOid (newId e)) :: d
              end in
    let id := sort_key "_id" d' in
    if existsb (matches (Some id)) (documents c w)
    then throw (js "E11000 duplicate key error")
    else put (set_documents c (documents c w ++ [d']) w) ;; ret id
  else throw (failure e).

(** The first document of [l] that matches [q] updated by [f]; with it, the
    number of documents matched. *)
Fixpoint update_first (q : query) (f : doc -> doc) (l : list doc)
  : nat * list doc :=
  match l with
  | [] => (0, [])
  | d :: l' =>
      if matches q d then (1, f d :: l')
      else let (n, l'') := update_first q f l' in (n, d :: l'')
  end.

(** [await collection.updateOne(q, { $set: upd })]; the result is
    [matchedCount]. *)
Definition updateOne (e : env) (c : collection) (q : query)
    (upd : list (string * value)) : M nat :=
  if op_ok e OpUpdateOne c then
    w <- get ;;
    let (n, l) := update_first q (set_fields upd) (documents c w) in
    put (set_documents c l w) ;; ret n
  else throw (failure e).

(** ** Requests and responses *)

(** A value of the JSON body of a request, as far as the program looks at
    it: absent, [null], a string, or another value (a number, a boolean, an
    array, an object), of which only the truth value and the conversion to a
    string are seen. *)
Inductive jsval : Type :=
| JUndefined
| JNull
| JStr (s : jsstring)
| JOther (t : bool) (str : jsstring).

(** [!x] is [negb (truthy x)] *)
Definition truthy (x : jsval) : bool :=
  match x with
  | JUndefined | JNull => false
  | JStr s => match s with [] => false | _ => true end
  | JOther t _ => t
  end.

(** [String(x)], which [RegExp.prototype.test] applies to its argument. *)
Definition toString (x : jsval) : jsstring :=
  match x with
  | JUndefined => js "undefined"
  | JNull => js "null"
  | JStr s => s
  | JOther _ str => str
  end.

(** [x.trim()] where [x] is the variable called [x_name]: only strings have
    the method. *)
Definition call_trim (x_name : string) (x : jsval) : M jsstring :=
  match x with
  | JStr s => ret (trim s)
  | _ => throw (js (x_name ++ ".trim is not a function"))
  end.

(** [const { name, email, message } = req.body] *)
Record contactBody : Type := {
  body_name : jsval;
  body_email : jsval;
  body_message : jsval
}.

Inductive request : Type :=
| GET_health
| GET_podcasts
| GET_videos
| GET_podcasts_id (id : jsstring)
| GET_videos_id (id : jsstring)
| POST_contact (b : contactBody)
| GET_messages
| GET_messages_id (id : jsstring)
| PUT_messages_id_read (id : jsstring)
| GET_debug.

(** [{ _id: d._id, keys: Object.keys(d) }] *)
Record sample : Type := {
  sample_id : option value;
  sample_keys : list string
}.

Record debugInfo : Type := {
  connection_database : jsstring;
  connection_podcastsCollection : jsstring;
  connection_videosCollection : jsstring;
  connection_connected : bool;
  stats_podcastCount : nat;
  stats_videoCount : nat;
  samplePodcast : option sample;
  sampleVideo : option sample
}.

(** The JSON bodies the program sends.  The timestamp of the health report is
    kept as an instant. *)
Inductive body : Type :=
| BHealth (status : jsstring) (timestamp : Z) (database : jsstring)
| BDocs (l : list doc)
| BDoc (d : doc)
| BError (error : jsstring) (message : option jsstring)
| BCreated (success : bool) (message : jsstring) (id : value)
| BSuccess (success : bool) (message : jsstring)
| BDebug (info : debugInfo).

Record response : Type := { status : Z; json : body }.

(** [res.json(b)] and [res.status(code).json(b)] *)
Definition res_json (b : body) : response := {| status := 200; json := b |}.
Definition res_status_json (code : Z) (b : body) : response :=
  {| status := code; json := b |}.

(** ** The program *)

(** What the module takes from where it is deployed: the constructor
    [new ObjectId(s)] of the installed driver, on a string (the identifier, or
    [None] where the constructor throws), and [process.env.DB_NAME]. *)
Class Deployment : Type := {
  ObjectId_parse : jsstring -> option ObjectId;
  env_DB_NAME : option jsstring
}.

Section Api.

Context {deployment : Deployment}.

(** [const DB_NAME = process.env.DB_NAME || 'Assets'] *)
Definition DB_NAME : jsstring :=
  match env_DB_NAME with
  | Some (c :: s) => c :: s
  | _ => js "Assets"
  end.

(** [new ObjectId(s)] *)
Definition new_ObjectId (s : jsstring) : M ObjectId :=
  match ObjectId_parse s with
  | Some o => ret o
  | None => throw (js "input must be a 24 character hex string, 12 byte Uint8Array, or an integer")
  end.

(** [async function connectDB()] *)
Definition connectDB (e : env) : M Db :=
  w <- get ;;
  match isConnected w, db w with
  | true, Some d => ret d
  | _, _ =>
      try
        (client_connect e ;;
         d <- client_db ;;
         set_db d ;;
         set_isConnected true ;;
         ret d)
      catch (fun error => throw error)
  end.

(** [app.get('/api/health', ...)] *)
Definition health (e : env) : M response :=
  w <- get ;;
  ret (res_json
         (BHealth (js "ok") (now e)
            (if isConnected w then js "connected" else js "disconnected"))).

(** [app.get('/api/podcasts', ...)] *)
Definition getPodcasts (e : env) : M response :=
  try
    (database <- connectDB e ;;
     let collection := PODCASTS_COLLECTION in
     podcasts <- toArray e (sort_cursor (find collection None) "date" (-1)) ;;
     ret (res_json (BDocs podcasts)))
  catch (fun error =>
    ret (res_status_json 503 (BError (js "Service unavailable") (Some error)))).

(** [app.get('/api/videos', ...)] *)
Definition getVideos (e : env) : M response :=
  try
    (database <- connectDB e ;;
     let collection := VIDEOS_COLLECTION in
     videos <- toArray e (sort_cursor (find collection None) "date" (-1)) ;;
     ret (res_json (BDocs videos)))
  catch (fun error =>
    ret (res_status_json 503 (BError (js "Service unavailable") (Some error)))).

(** The [let query; try { ... } catch (e) { ... }] of the four routes with
    an [:id]. *)
Definition idQuery (id : jsstring) : M query :=
  try (o <- new_ObjectId id ;; ret (Some (VOid o)))
  catch (fun _ => ret (Some (VStr id))).

(** [app.get('/api/podcasts/:id', ...)] *)
Definition getPodcastById (e : env) (id : jsstring) : M response :=
  try
    (database <- connectDB e ;;
     let collection := PODCASTS_COLLECTION in
     query <- idQuery id ;;
     podcast <- findOne e collection query ;;
     match podcast with
     | None => ret (res_status_json 404 (BError (js "Podcast not found") None))
     | Some podcast => ret (res_json (BDoc podcast))
     end)
  catch (fun error =>
    ret (res_status_json 500 (BError (js "Internal server error") (Some error)))).

(** [app.get('/api/videos/:id', ...)] *)
Definition getVideoById (e : env) (id : jsstring) : M response :=
  try
    (database <- connectDB e ;;
     let collection := VIDEOS_COLLECTION in
     query <- idQuery id ;;
     video <- findOne e collection query ;;
     match video with
     | None => ret (res_status_json 404 (BError (js "Video not found") None))
     | Some video => ret (res_json (BDoc video))
     end)
  catch (fun error =>
    ret (res_status_json 500 (BError (js "Internal server error") (Some error)))).

(** [app.post('/api/contact', ...)] *)
Definition postContact (e : env) (b : contactBody) : M response :=
  try
    (let name := body_name b in
     let email := body_email b in
     let message := body_message b in
     if negb (truthy name) || negb (truthy email) || negb (truthy message)
     then ret (res_status_json 400 (BError (js "All fields are required") None))
     else if negb (Regex.matches emailRegex (toString email))
     then ret (res_status_json 400 (BError (js "Invalid email address") None))
     else
       database <- connectDB e ;;
       let collection := MESSAGES_COLLECTION in
       name' <- call_trim "name" name ;;
       email' <- call_trim "email" email ;;
       message' <- call_trim "message" message ;;
       let contactMessage :=
         [("name", VStr name'); ("email", VStr email');
          ("message", VStr message'); ("createdAt", VDate (now e));
          ("read", VBool false)] in
       insertedId <- insertOne e collection contactMessage ;;
       ret (res_status_json 201
              (BCreated true (js "Message sent successfully") insertedId)))
  catch (fun error =>
    ret (res_status_json 500 (BError (js "Internal server error") (Some error)))).

(** [app.get('/api/messages', ...)] *)
Definition getMessages (e : env) : M response :=
  try
    (database <- connectDB e ;;
     let collection := MESSAGES_COLLECTION in
     messages <- toArray e (sort_cursor (find collection None) "createdAt" (-1)) ;;
     ret (res_json (BDocs messages)))
  catch (fun error =>
    ret (res_status_json 500 (BError (js "Internal server error") (Some error)))).

(** [app.get('/api/messages/:id', ...)] *)
Definition getMessageById (e : env) (id : jsstring) : M response :=
  try
    (database <- connectDB e ;;
     let collection := MESSAGES_COLLECTION in
     query <- idQuery id ;;
     message <- findOne e collection query ;;
     match message with
     | None => ret (res_status_json 404 (BError (js "Message not found") None))
     | Some message => ret (res_json (BDoc message))
     end)
  catch (fun error =>
    ret (res_status_json 500 (BError (js "Internal server error") (Some error)))).

(** [app.put('/api/messages/:id/read', ...)] *)
Definition markMessageRead (e : env) (id : jsstring) : M response :=
  try
    (database <- connectDB e ;;
     let collection := MESSAGES_COLLECTION in
     query <- idQuery id ;;
     matchedCount <-
       updateOne e collection query
         [("read", VBool true); ("readAt", VDate (now e))] ;;
     if (matchedCount =? 0)%nat
     then ret (res_status_json 404 (BError (js "Message not found") None))
     else ret (res_json (BSuccess true (js "Message marked as read"))))
  catch (fun error =>
    ret (res_status_json 500 (BError (js "Internal server error") (Some error)))).

Definition sample_of (first : option doc) : option sample :=
  match first with
  | Some d => Some {| sample_id := field "_id" d; sample_keys := keys d |}
  | None => None
  end.

(** [app.get('/api/debug', ...)] *)
Definition debug (e : env) : M response :=
  try
    (database <- connectDB e ;;
     let podcastsCollection := PODCASTS_COLLECTION in
     let videosCollection := VIDEOS_COLLECTION in
     podcastCount <- countDocuments e podcastsCollection None ;;
     videoCount <- countDocuments e videosCollection None ;;
     firstPodcast <- findOne e podcastsCollection None ;;
     firstVideo <- findOne e videosCollection None ;;
     w <- get ;;
     let debugInfo :=
       {| connection_database := DB_NAME;
          connection_podcastsCollection := collection_name PODCASTS_COLLECTION;
          connection_videosCollection := collection_name VIDEOS_COLLECTION;
          connection_connected := isConnected w;
          stats_podcastCount := podcastCount;
          stats_videoCount := videoCount;
          samplePodcast := sample_of firstPodcast;
          sampleVideo := sample_of firstVideo |} in
     ret (res_json (BDebug debugInfo)))
  catch (fun error =>
    ret (res_status_json 503 (BError (js "Debug error") (Some error)))).

(** The routes of the application. *)
Definition app (r : request) (e : env) : M response :=
  match r with
  | GET_health => health e
  | GET_podcasts => getPodcasts e
  | GET_videos => getVideos e
  | GET_podcasts_id id => getPodcastById e id
  | GET_videos_id id => getVideoById e id
  | POST_contact b => postContact e b
  | GET_messages => getMessages e
  | GET_messages_id id => getMessageById e id
  | PUT_messages_id_read id => markMessageRead e id
  | GET_debug => debug e
  end.

(** The response to a request and the world after it.  A handler catches
    all it throws; the last case is there for totality. *)
Definition serve (r : request) (e : env) (w : World) : response * World :=
  match app r e w with
  | (Ok res, w') => (res, w')
  | (Throw error, w') =>
      (res_status_json 500 (BError (js "Internal Server Error") (Some error)), w')
  end.

End Api.

(** ** [connectDB] around its [await]

    [connectDB] is suspended once, at [await client.connect()], and calls of
    different requests can interleave there.  The part before the [await]
    gives the handle when one is there and otherwise calls
    [client.connect()]; the part after it runs when that call has resolved or
    failed. *)
Definition connectDB_enter : M (option Db) :=
  w <- get ;;
  match isConnected w, db w with
  | true, Some d => ret (Some d)
  | _, _ =>
      put {| db := db w; isConnected := isConnected w;
             connects := S (connects w); podcasts := podcasts w;
             videos := videos w; messages := messages w |} ;;
      ret None
  end.

Definition connectDB_resume (resolved : bool) (error : jsstring) : M Db :=
  if resolved then
    d <- client_db ;;
    set_db d ;;
    set_isConnected true ;;
    ret d
  else throw error.

(** What calls of [connectDB] in flight do, one part at a time. *)
Inductive connect_event : Type :=
| Enters
| Resumes (resolved : bool).

Definition connect_step (w : World) (ev : connect_event) : World :=
  match ev with
  | Enters => snd (connectDB_enter w)
  | Resumes resolved => snd (connectDB_resume resolved [] w)
  end.

Definition interleave (evs : list connect_event) (w : World) : World :=
  fold_left connect_step evs w.

(** ** Notions used to state the properties *)

(** [connectDB] will give a handle: one is already there, or
    [client.connect()] resolves. *)
Definition can_connect (e : env) (w : World) : bool :=
  match isConnected w, db w with
  | true, Some _ => true
  | _, _ => connect_ok e
  end.

(** The state "connected" of the process, with its handle. *)
Definition connected (w : World) (d : Db) : Prop :=
  isConnected w = true /\ db w = Some d.

(** The store answers the operation [op] on [c] of a request served in [w]:
    a handle is there or can be made, and the operation resolves. *)
Definition store_up (e : env) (w : World) (op : operation) (c : collection)
  : bool :=
  can_connect e w && op_ok e op c.

(** The flag [isConnected] is set exactly when [db] holds a handle. *)
Definition flag_agrees (w : World) : Prop :=
  isConnected w = true <-> exists d, db w = Some d.

(** A list of documents in descending order of the field [k]: each document
    is at least every later one, in the order of the store. *)
Definition descending (k : string) (l : list doc) : Prop :=
  StronglySorted (fun a b => bson_leb (sort_key k b) (sort_key k a) = true) l.

(** The checks of the contact form: the three values are truthy and the
    address has the shape of [emailRegex]. *)
Definition accepted (b : contactBody) : bool :=
  truthy (body_name b) && truthy (body_email b) && truthy (body_message b)
  && Regex.matches emailRegex (toString (body_email b)).

(** The store answers every operation of the debug route. *)
Definition debug_up (e : env) (w : World) : bool :=
  can_connect e w
  && op_ok e OpCountDocuments PODCASTS_COLLECTION
  && op_ok e OpCountDocuments VIDEOS_COLLECTION
  && op_ok e OpFindOne PODCASTS_COLLECTION
  && op_ok e OpFindOne VIDEOS_COLLECTION.

(** The part of the world that belongs to the process. *)
Definition process (w : World) : option Db * bool * nat :=
  (db w, isConnected w, connects w).

(** Equality on [_id] with a given value, the test of the filter
    [{ _id: v }]. *)
Definition by_id (v : value) (d : doc) : bool :=
  match field "_id" d with
  | Some x => value_eqb x v
  | None => false
  end.

(** The response of a lookup: the document, or 404. *)
Definition found_or_404 (what : string) (found : option doc) : response :=
  match found with
  | Some d => res_json (BDoc d)
  | None => res_status_json 404 (BError (js (what ++ " not found")) None)
  end.

(** A body value that is absent or empty once surrounding white space is
    trimmed. *)
Definition blank (x : jsval) : bool :=
  match x with
  | JUndefined | JNull => true
  | JStr s => match trim s with [] => true | _ => false end
  | JOther _ _ => false
  end.

(** The worlds a process can be in: it starts over some content of the
    database, it serves requests, and the content of the collections can
    change from outside (the podcasts and videos are written by another
    process). *)
Inductive reachable {deployment : Deployment} : World -> Prop :=
| reachable_start ps vs ms : reachable (start ps vs ms)
| reachable_serve r e w : reachable w -> reachable (snd (serve r e w))
| reachable_outside c l w : reachable w -> reachable (set_documents c l w).

(** ** Notions used to state further properties *)

(** The identifiers of a list of documents, in order. *)
Definition ids (l : list doc) : list (option value) := List.map (field "_id") l.

(** A request that gets as far as [connectDB]: every route but the health
    check, and a contact request only when its values are accepted. *)
Definition reaches_store (r : request) : bool :=
  match r with
  | GET_health => false
  | POST_contact b => accepted b
  | _ => true
  end.

(** The statuses each route sends. *)
Definition statuses (r : request) : list Z :=
  match r with
  | GET_health => [200]
  | GET_podcasts | GET_videos | GET_debug => [200; 503]
  | GET_messages => [200; 500]
  | GET_podcasts_id _ | GET_videos_id _ | GET_messages_id _
  | PUT_messages_id_read _ => [200; 404; 500]
  | POST_contact _ => [201; 400; 500]
  end%Z.

(** A string with no white space at either end. *)
Definition trimmed (s : jsstring) : bool :=
  match s with
  | [] => true
  | c :: _ => negb (is_ws c) && negb (is_ws (last s c))
  end.

(** The document a contact request stores. *)
Definition contact_document (e : env) (name email message : jsstring) : doc :=
  [("_id", VOid (newId e)); ("name", VStr (trim name));
   ("email", VStr (trim email)); ("message", VStr (trim message));
   ("createdAt", VDate (now e)); ("read", VBool false)].


(** ** An instance of the driver, and sample data *)

Definition hex_digit (c : N) : option N :=
  if ((48 <=? c) && (c <=? 57))%N then Some (c - 48)%N
  else if ((97 <=? c) && (c <=? 102))%N then Some (c - 87)%N
  else if ((65 <=? c) && (c <=? 70))%N then Some (c - 55)%N
  else None.

Fixpoint hex_bytes (s : jsstring) : option (list N) :=
  match s with
  | [] => Some []
  | a :: b :: s' =>
      match hex_digit a, hex_digit b, hex_bytes s' with
      | Some x, Some y, Some l => Some ((16 * x + y)%N :: l)
      | _, _, _ => None
      end
  | _ => None
  end.

(** [new ObjectId(s)] as the current driver has it: [s] must be 24
    hexadecimal digits. *)
Definition ObjectId_of_hex (s : jsstring) : option ObjectId :=
  if (List.length s =? 24)%nat then hex_bytes s else None.

(** A deployment with that driver and no [DB_NAME] in the environment. *)
Definition hex_deployment : Deployment :=
  {| ObjectId_parse := ObjectId_of_hex; env_DB_NAME := None |}.

(** An environment in which nothing fails. *)
Definition fair (t : Z) (id : ObjectId) : env :=
  {| connect_ok := true; op_ok := fun _ _ => true;
     failure := js "connection refused"; now := t; newId := id |}.

(** An environment in which the store cannot be reached. *)
Definition down (t : Z) : env :=
  {| connect_ok := false; op_ok := fun _ _ => false;
     failure := js "connection refused"; now := t; newId := [] |}.

Definition oid1 : ObjectId := [101; 42; 0; 0; 0; 0; 0; 0; 0; 0; 0; 1]%N.
Definition hex1 : jsstring := js "652a00000000000000000001".

Definition podcast_a : doc :=
  [("_id", VStr (js "a")); ("title", VStr (js "first")); ("date", VStr (js "2024-01-05"))].
Definition podcast_b : doc :=
  [("_id", VStr (js "b")); ("title", VStr (js "second")); ("date", VStr (js "2024-03-01"))].

Definition message1 : doc :=
  [("_id", VOid oid1); ("name", VStr (js "Ann")); ("email", VStr (js "ann@example.org"));
   ("message", VStr (js "hello")); ("createdAt", VDate 1000); ("read", VBool false)].

(** A message that has been read already. *)
Definition message2 : doc :=
  [("_id", VStr (js "legacy-7")); ("name", VStr (js "Bob"));
   ("email", VStr (js "bob@example.org")); ("message", VStr (js "hi"));
   ("createdAt", VDate 500); ("read", VBool true); ("readAt", VDate 700)].

(** A contact request whose name is made of spaces. *)
Definition contact_spaces : contactBody :=
  {| body_name := JStr (js "   "); body_email := JStr (js "a@b.c");
     body_message := JStr (js "hi") |}.

(** A contact request without a message. *)
Definition contact_no_message : contactBody :=
  {| body_name := JStr (js "Ann"); body_email := JStr (js "ann@example.org");
     body_message := JUndefined |}.

(** A contact request whose name is a number. *)
Definition contact_number_name : contactBody :=
  {| body_name := JOther true (js "42"); body_email := JStr (js "a@b.c");
     body_message := JStr (js "hi") |}.

(** A podcast whose [_id] is a string of 24 hexadecimal digits. *)
Definition podcast_hex : doc :=
  [("_id", VStr hex1); ("title", VStr (js "third")); ("date", VStr (js "2024-02-02"))].


(** * Properties *)

Example emailRegex_ok : Regex.matches emailRegex (js "a@b.c") = true.
Proof. reflexivity. Qed.
Example emailRegex_ko : Regex.matches emailRegex (js "not-an-email") = false.
Proof. reflexivity. Qed.
Example emailRegex_ws : Regex.matches emailRegex (js "a b@c.d") = false.
Proof. reflexivity. Qed.
Example emailRegex_dots : Regex.matches emailRegex (js "a.b@c.d.e") = true.
Proof. reflexivity. Qed.
Example trim_ex : trim (js "  hi there ") = js "hi there".
Proof. reflexivity. Qed.
Example ObjectId_of_hex1 : ObjectId_of_hex hex1 = Some oid1.
Proof. reflexivity. Qed.
Example ObjectId_of_hex_ko : ObjectId_of_hex (js "episode-12") = None.
Proof. reflexivity. Qed.

Example list_podcasts_fixture :
  fst (serve (deployment := hex_deployment) GET_podcasts (fair 0 oid1)
         (start [podcast_a; podcast_b] [] []))
  = res_json (BDocs [podcast_b; podcast_a]).
Proof. reflexivity. Qed.

Example get_by_string_key :
  fst (serve (deployment := hex_deployment) (GET_podcasts_id (js "a")) (fair 0 oid1)
         (start [podcast_a; podcast_b] [] []))
  = res_json (BDoc podcast_a).
Proof. reflexivity. Qed.

Example get_message_by_hex :
  fst (serve (deployment := hex_deployment) (GET_messages_id hex1) (fair 0 oid1)
         (start [] [] [message1]))
  = res_json (BDoc message1).
Proof. reflexivity. Qed.

Example debug_empty :
  exists i, json (fst (serve (deployment := hex_deployment) GET_debug (fair 0 oid1) (start [] [] [])))
            = BDebug i /\ samplePodcast i = None /\ sampleVideo i = None.
Proof. eexists. split; [reflexivity|]. split; reflexivity. Qed.

(** ** Sorting *)
Section SortingFacts.

Variable A : Type.
Variable leb : A -> A -> bool.

Lemma insert_perm x l : Permutation (x :: l) (insert leb x l).
Proof.
  induction l as [|y l IH]; simpl; [reflexivity|].
  destruct (leb x y); [reflexivity|].
  rewrite perm_swap. now constructor.
Qed.

Lemma isort_perm l : Permutation l (isort leb l).
Proof.
  induction l as [|x l IH]; simpl; [constructor|].
  rewrite <- insert_perm. now constructor.
Qed.

Hypothesis leb_total : forall a b, leb a b = true \/ leb b a = true.
Hypothesis leb_trans :
  forall a b c, leb a b = true -> leb b c = true -> leb a c = true.

Lemma insert_sorted x l :
  StronglySorted (fun a b => leb a b = true) l ->
  StronglySorted (fun a b => leb a b = true) (insert leb x l).
Proof.
  induction 1 as [|y l Hs IH Hy]; simpl.
  - repeat constructor.
  - destruct (leb x y) eqn:E.
    + constructor; [now constructor|].
      constructor; [exact E|].
      rewrite Forall_forall in *. intros z Hz. eauto.
    + constructor; [exact IH|].
      rewrite Forall_forall in *. intros z Hz.
      apply Permutation_in with (l' := x :: l) in Hz;
        [|symmetry; apply insert_perm].
      destruct Hz as [<-|Hz]; [|auto].
      destruct (leb_total x y) as [H|H]; congruence.
Qed.

Lemma isort_sorted l : StronglySorted (fun a b => leb a b = true) (isort leb l).
Proof.
  induction l as [|x l IH]; simpl; [constructor|now apply insert_sorted].
Qed.

End SortingFacts.

Lemma lex_leb_total a b : lex_leb a b = true \/ lex_leb b a = true.
Proof.
  revert b; induction a as [|x a IH]; intros [|y b]; simpl; auto.
  destruct (Z.ltb_spec x y), (Z.ltb_spec y x); auto; lia.
Qed.

Lemma lex_leb_trans a b c :
  lex_leb a b = true -> lex_leb b c = true -> lex_leb a c = true.
Proof.
  revert b c; induction a as [|x a IH]; intros [|y b] [|z c]; simpl; auto;
    try discriminate.
  destruct (Z.ltb_spec x y), (Z.ltb_spec y x), (Z.ltb_spec y z),
    (Z.ltb_spec z y), (Z.ltb_spec x z), (Z.ltb_spec z x);
    auto; try discriminate; try lia.
  apply IH.
Qed.

Lemma sort_leb_total k dir a b :
  sort_leb k dir a b = true \/ sort_leb k dir b a = true.
Proof. unfold sort_leb, bson_leb. destruct (dir <? 0)%Z; apply lex_leb_total. Qed.

Lemma sort_leb_trans k dir a b c :
  sort_leb k dir a b = true -> sort_leb k dir b c = true ->
  sort_leb k dir a c = true.
Proof.
  unfold sort_leb, bson_leb. destruct (dir <? 0)%Z; intros; eapply lex_leb_trans; eauto.
Qed.

Lemma sort_perm k dir l : Permutation l (sort k dir l).
Proof. apply isort_perm. Qed.

Lemma sort_sorted k dir l :
  StronglySorted (fun a b => sort_leb k dir a b = true) (sort k dir l).
Proof.
  apply isort_sorted; [apply sort_leb_total | apply sort_leb_trans].
Qed.

(** ** The connection *)

Ltac run_monad :=
  unfold try_catch, bind, ret, throw, get, put in *; simpl in *.

Lemma connectDB_reuse e w d : connected w d -> connectDB e w = (Ok d, w).
Proof.
  intros [H1 H2]. unfold connectDB. run_monad. now rewrite H1, H2.
Qed.

(** What a call of [connectDB] that resolves leaves behind. *)
Lemma connectDB_resolves e w d w' :
  connectDB e w = (Ok d, w') ->
  can_connect e w = true /\ connected w' d
  /\ podcasts w' = podcasts w /\ videos w' = videos w
  /\ messages w' = messages w
  /\ (forall d0, connected w d0 -> w' = w).
Proof.
  unfold connectDB, can_connect, connected, client_connect, client_db, set_db,
    set_isConnected.
  run_monad.
  destruct (isConnected w) eqn:Hc, (db w) as [d0|] eqn:Hd, (connect_ok e) eqn:Ho;
    simpl; intros H; inversion H; subst; clear H; simpl;
    repeat split; auto; try (intros ? [? ?]; congruence).
Qed.

(** What a call of [connectDB] that throws leaves behind. *)
Lemma connectDB_rejects e w m w' :
  connectDB e w = (Throw m, w') ->
  can_connect e w = false /\ m = failure e
  /\ isConnected w' = isConnected w /\ db w' = db w
  /\ connects w' = S (connects w)
  /\ podcasts w' = podcasts w /\ videos w' = videos w
  /\ messages w' = messages w.
Proof.
  unfold connectDB, can_connect, client_connect, client_db, set_db,
    set_isConnected.
  run_monad.
  destruct (isConnected w) eqn:Hc, (db w) as [d0|] eqn:Hd, (connect_ok e) eqn:Ho;
    simpl; intros H; inversion H; subst; clear H; simpl;
    repeat split; auto.
Qed.

Lemma connectDB_total e w :
  (can_connect e w = true /\ exists d w', connectDB e w = (Ok d, w'))
  \/ (can_connect e w = false /\ exists w', connectDB e w = (Throw (failure e), w')).
Proof.
  destruct (connectDB e w) as [[d|m] w'] eqn:E.
  - left. split; [eapply connectDB_resolves; eauto|eauto].
  - right. apply connectDB_rejects in E as H. destruct H as (H1 & -> & _).
    split; eauto.
Qed.

(** [connectDB] is its two parts, one after the other. *)
Lemma connectDB_split e w :
  connectDB e w
  = (o <- connectDB_enter ;;
     match o with
     | Some d => ret d
     | None => connectDB_resume (connect_ok e) (failure e)
     end) w.
Proof.
  unfold connectDB, connectDB_enter, connectDB_resume, client_connect,
    client_db, set_db, set_isConnected.
  run_monad.
  destruct w as [d c n ps vs ms]; simpl.
  destruct c, d, (connect_ok e); reflexivity.
Qed.

Lemma connect_step_keeps_flag w ev :
  isConnected w = true -> isConnected (connect_step w ev) = true.
Proof.
  unfold connect_step, connectDB_enter, connectDB_resume, client_db, set_db,
    set_isConnected.
  run_monad. intros H.
  destruct ev as [|[|]]; simpl; auto.
  rewrite H. now destruct (db w).
Qed.

(** However the parts of calls of [connectDB] interleave, [isConnected]
    stays set. *)
Lemma interleave_keeps_flag evs w :
  isConnected w = true -> isConnected (interleave evs w) = true.
Proof.
  unfold interleave. revert w.
  induction evs as [|ev evs IH]; simpl; intros w H; [exact H|].
  apply IH. now apply connect_step_keeps_flag.
Qed.

(** ** The operations on collections *)

Lemma process_set_documents c l w : process (set_documents c l w) = process w.
Proof. now destruct c. Qed.

Lemma documents_set_documents c l w : documents c (set_documents c l w) = l.
Proof. now destruct c. Qed.

Lemma documents_set_documents_other c c' l w :
  c <> c' -> documents c' (set_documents c l w) = documents c' w.
Proof. destruct c, c'; simpl; congruence. Qed.

Lemma toArray_world e cur w r w' : toArray e cur w = (r, w') -> w' = w.
Proof.
  unfold toArray. destruct (op_ok e OpFind _); run_monad; congruence.
Qed.

Lemma findOne_world e c q w r w' : findOne e c q w = (r, w') -> w' = w.
Proof.
  unfold findOne. destruct (op_ok e OpFindOne _); run_monad; congruence.
Qed.

Lemma countDocuments_world e c q w r w' :
  countDocuments e c q w = (r, w') -> w' = w.
Proof.
  unfold countDocuments. destruct (op_ok e OpCountDocuments _); run_monad; congruence.
Qed.

Lemma insertOne_process e c d w r w' :
  insertOne e c d w = (r, w') -> process w' = process w.
Proof.
  unfold insertOne. destruct (op_ok e OpInsertOne _); run_monad;
    [|congruence].
  destruct (existsb _ _); intros H; inversion H; subst;
    auto using process_set_documents.
Qed.

Lemma updateOne_process e c q upd w r w' :
  updateOne e c q upd w = (r, w') -> process w' = process w.
Proof.
  unfold updateOne. destruct (op_ok e OpUpdateOne _); run_monad;
    [|congruence].
  destruct (update_first _ _ _). run_monad.
  intros H; inversion H; subst; auto using process_set_documents.
Qed.

Lemma call_trim_world x_name x w r w' : call_trim x_name x w = (r, w') -> w' = w.
Proof. destruct x; unfold call_trim; run_monad; congruence. Qed.

(** ** Documents *)

Lemma codes_eqb_refl a : codes_eqb a a = true.
Proof. induction a as [|x a IH]; simpl; [reflexivity|]. now rewrite N.eqb_refl. Qed.

Lemma codes_eqb_eq a b : codes_eqb a b = true <-> a = b.
Proof.
  revert b. induction a as [|x a IH]; intros [|y b]; simpl;
    try (split; [discriminate|congruence]); [tauto|].
  rewrite andb_true_iff, N.eqb_eq, IH. split; [intros [-> ->]|intros H; inversion H]; auto.
Qed.

(** [value_eqb] is equality of values: a string is never equal to an
    [ObjectId]. *)
Lemma value_eqb_eq a b : value_eqb a b = true <-> a = b.
Proof.
  destruct a, b; simpl; try (split; [discriminate|congruence]);
    rewrite ?Z.eqb_eq, ?codes_eqb_eq, ?Bool.eqb_true_iff;
    try tauto; split; congruence.
Qed.


Lemma field_set_field k v d : field k (set_field k v d) = Some v.
Proof.
  induction d as [|[k' v'] d IH]; simpl.
  - now rewrite String.eqb_refl.
  - destruct (String.eqb k k') eqn:E; simpl.
    + now rewrite String.eqb_refl.
    + now rewrite E.
Qed.

Lemma field_set_field_other k k' v d :
  k <> k' -> field k (set_field k' v d) = field k d.
Proof.
  intros N. apply String.eqb_neq in N.
  induction d as [|[k0 v0] d IH]; simpl.
  - now rewrite N.
  - destruct (String.eqb k' k0) eqn:E; simpl.
    + apply String.eqb_eq in E. subst k0. now rewrite N.
    + now rewrite IH.
Qed.

(** The update of Mark Message Read on one document. *)
Lemma mark_read_fields t d :
  let d' := set_fields [("read", VBool true); ("readAt", VDate t)] d in
  field "read" d' = Some (VBool true)
  /\ field "readAt" d' = Some (VDate t)
  /\ forall k, k <> "read" -> k <> "readAt" -> field k d' = field k d.
Proof.
  unfold set_fields. simpl. repeat split.
  - rewrite field_set_field_other by discriminate. apply field_set_field.
  - apply field_set_field.
  - intros k H1 H2. now rewrite !field_set_field_other.
Qed.

Lemma mark_read_matches t q d :
  matches q (set_fields [("read", VBool true); ("readAt", VDate t)] d)
  = matches q d.
Proof.
  destruct q as [v|]; [|reflexivity]. unfold matches.
  destruct (mark_read_fields t d) as (_ & _ & H).
  now rewrite H by discriminate.
Qed.

(** [update_first] on a list in which [d] is the first match. *)
Lemma update_first_found q f l d :
  List.find (matches q) l = Some d ->
  exists l1 l2,
    l = l1 ++ d :: l2
    /\ List.find (matches q) l1 = None
    /\ matches q d = true
    /\ snd (update_first q f l) = l1 ++ f d :: l2.
Proof.
  induction l as [|x l IH]; simpl; [discriminate|].
  destruct (matches q x) eqn:E.
  - intros H. inversion H; subst. exists [], l. simpl. auto.
  - intros H. destruct (IH H) as (l1 & l2 & -> & H1 & H2 & H3).
    exists (x :: l1), l2. simpl. rewrite E.
    destruct (update_first q f (l1 ++ d :: l2)). simpl in *.
    repeat split; auto. now rewrite H3.
Qed.

Lemma update_first_missing q f l :
  List.find (matches q) l = None -> snd (update_first q f l) = l.
Proof.
  induction l as [|x l IH]; simpl; [reflexivity|].
  destruct (matches q x); [discriminate|].
  intros H. destruct (update_first q f l). simpl in *. now rewrite IH.
Qed.

Lemma find_middle (p : doc -> bool) l1 d l2 :
  List.find p l1 = None -> p d = true -> List.find p (l1 ++ d :: l2) = Some d.
Proof.
  induction l1 as [|x l1 IH]; simpl; intros H1 H2.
  - now rewrite H2.
  - destruct (p x); [discriminate|auto].
Qed.

Lemma find_none_existsb (p : doc -> bool) l :
  List.find p l = None <-> existsb p l = false.
Proof.
  induction l as [|x l IH]; simpl; [tauto|].
  destruct (p x); simpl; [split; discriminate|exact IH].
Qed.


(** ** The matcher and the language of a regular expression *)

Lemma lang_nil_nullable r : Regex.lang r [] <-> Regex.nullable r = true.
Proof.
  split.
  - remember (@nil N) as s eqn:E. intros H; revert E.
    induction H; intros E; simpl; auto; try discriminate.
    + apply app_eq_nil in E as [-> ->]. now rewrite IHlang1, IHlang2.
    + now rewrite IHlang.
    + rewrite IHlang by assumption. apply orb_true_r.
  - induction r; simpl; intros H; try discriminate.
    + constructor.
    + apply andb_prop in H as [H1 H2].
      change (@nil N) with (@nil N ++ []). constructor; auto.
    + apply orb_prop in H as [H|H];
        [apply Regex.lang_alt_l|apply Regex.lang_alt_r]; auto.
    + constructor.
Qed.

Lemma lang_deriv_cons c r s :
  Regex.lang (Regex.deriv c r) s -> Regex.lang r (c :: s).
Proof.
  revert s. induction r; simpl; intros s H.
  - inversion H.
  - inversion H.
  - destruct (p c) eqn:E; inversion H; subst. now constructor.
  - assert (S : forall s, Regex.lang (Regex.Seq (Regex.deriv c r1) r2) s ->
                          Regex.lang (Regex.Seq r1 r2) (c :: s)).
    { intros s0 H0. inversion H0; subst.
      change (c :: s1 ++ s2) with ((c :: s1) ++ s2). constructor; auto. }
    destruct (Regex.nullable r1) eqn:E; [|now apply S].
    inversion H; subst; [now apply S|].
    change (c :: s) with ([] ++ c :: s). constructor; auto.
    now apply lang_nil_nullable.
  - inversion H; subst;
      [apply Regex.lang_alt_l|apply Regex.lang_alt_r]; auto.
  - inversion H; subst.
    change (c :: s1 ++ s2) with ((c :: s1) ++ s2). constructor; auto.
Qed.

Lemma lang_cons_deriv r x :
  Regex.lang r x -> forall c s, x = c :: s -> Regex.lang (Regex.deriv c r) s.
Proof.
  induction 1 as [|p c0 Hp|r1 r2 s1 s2 H1 IH1 H2 IH2|r1 r2 s0 H0 IH0
                 |r1 r2 s0 H0 IH0|r0|r0 s1 s2 H1 IH1 H2 IH2];
    intros c s E; simpl.
  - discriminate.
  - inversion E; subst. rewrite Hp. constructor.
  - destruct s1 as [|c1 s1]; simpl in E.
    + apply lang_nil_nullable in H1. rewrite H1.
      apply Regex.lang_alt_r. now apply IH2.
    + inversion E; subst.
      assert (Regex.lang (Regex.Seq (Regex.deriv c r1) r2) (s1 ++ s2))
        by (constructor; auto).
      destruct (Regex.nullable r1); [now apply Regex.lang_alt_l|assumption].
  - apply Regex.lang_alt_l. now apply IH0.
  - apply Regex.lang_alt_r. now apply IH0.
  - discriminate.
  - destruct s1 as [|c1 s1]; simpl in E.
    + now apply IH2.
    + inversion E; subst. constructor; auto.
Qed.

(** The matcher decides the language. *)
Lemma matches_lang r s : Regex.matches r s = true <-> Regex.lang r s.
Proof.
  revert r. induction s as [|c s IH]; intros r; simpl.
  - symmetry. apply lang_nil_nullable.
  - rewrite IH. split; [apply lang_deriv_cons|].
    intros H. eapply lang_cons_deriv; eauto.
Qed.

Lemma lang_star_class p s :
  Regex.lang (Regex.Star (Regex.Class p)) s <-> forallb p s = true.
Proof.
  split.
  - remember (Regex.Star (Regex.Class p)) as r eqn:E. intros H; revert E.
    induction H; intros E; try discriminate; [reflexivity|].
    inversion E; subst. inversion H; subst. simpl.
    rewrite IHlang2 by reflexivity.
    match goal with Hp : p _ = true |- _ => now rewrite Hp end.
  - induction s as [|c s IH]; simpl; intros H; [constructor|].
    apply andb_prop in H as [H1 H2].
    change (c :: s) with ([c] ++ s). constructor; [now constructor|auto].
Qed.

Lemma lang_plus_class p s :
  Regex.lang (Regex.Plus (Regex.Class p)) s
  <-> s <> [] /\ forallb p s = true.
Proof.
  unfold Regex.Plus. split.
  - intros H. inversion H; subst.
    match goal with H1 : Regex.lang (Regex.Class p) _ |- _ => inversion H1; subst end.
    match goal with H2 : Regex.lang (Regex.Star _) _ |- _ =>
      apply lang_star_class in H2 end.
    simpl. split; [discriminate|].
    match goal with Hp : p _ = true |- _ => now rewrite Hp end.
  - intros [N H]. destruct s as [|c s]; [congruence|]. simpl in H.
    apply andb_prop in H as [H1 H2].
    change (c :: s) with ([c] ++ s).
    constructor; [now constructor|now apply lang_star_class].
Qed.

Lemma lang_chr c s x :
  js c = [x] -> Regex.lang (Regex.Chr c) s <-> s = [x].
Proof.
  intros E. unfold Regex.Chr. rewrite E. split.
  - intros H. inversion H as [|p c0 Hp| | | | |]; subst. simpl in Hp.
    rewrite orb_false_r in Hp. apply N.eqb_eq in Hp. now subst.
  - intros ->. constructor. simpl. now rewrite N.eqb_refl.
Qed.

(** The strings [emailRegex] matches: a local part, [@], a domain, a dot and
    an ending, each non-empty and free of white space and [@]. *)
Lemma emailRegex_shape s :
  Regex.matches emailRegex s = true
  <-> exists a b c,
        s = a ++ [64%N] ++ b ++ [46%N] ++ c
        /\ a <> [] /\ b <> [] /\ c <> []
        /\ forallb not_ws_at a = true /\ forallb not_ws_at b = true
        /\ forallb not_ws_at c = true.
Proof.
  rewrite matches_lang. unfold emailRegex. split.
  - intros H.
    inversion H as [| |? ? a s1 Ha H1| | | |]; subst; clear H.
    inversion H1 as [| |? ? at_ s2 Hat H2| | | |]; subst; clear H1.
    inversion H2 as [| |? ? b s3 Hb H3| | | |]; subst; clear H2.
    inversion H3 as [| |? ? dot c Hdot Hc| | | |]; subst; clear H3.
    apply lang_plus_class in Ha as [? ?], Hb as [? ?], Hc as [? ?].
    apply (lang_chr "@" at_ (x := 64%N)) in Hat; [|reflexivity].
    apply (lang_chr "." dot (x := 46%N)) in Hdot; [|reflexivity].
    subst. exists a, b, c. repeat split; auto.
  - intros (a & b & c & -> & Na & Nb & Nc & Ha & Hb & Hc).
    constructor; [now apply lang_plus_class|].
    constructor; [now apply (lang_chr "@" _ (x := 64%N))|].
    constructor; [now apply lang_plus_class|].
    constructor; [now apply (lang_chr "." _ (x := 46%N))|].
    now apply lang_plus_class.
Qed.


(** ** White space, [trim] and [emailRegex] *)

Lemma dead_regex r1 r2 s :
  Regex.matches (Regex.Seq (Regex.Seq Regex.Void r1) r2) s = false.
Proof. induction s as [|c s IH]; simpl; auto. Qed.

(** An address that starts with white space does not match. *)
Lemma emailRegex_leading_ws c s :
  is_ws c = true -> Regex.matches emailRegex (c :: s) = false.
Proof.
  intros H. unfold emailRegex, Regex.Plus. simpl.
  unfold not_ws_at. rewrite H. simpl. apply dead_regex.
Qed.

Lemma emailRegex_empty : Regex.matches emailRegex [] = false.
Proof. reflexivity. Qed.

Lemma trimStart_snoc l c : is_ws c = false -> trimStart (l ++ [c]) <> [].
Proof.
  intros H. induction l as [|x l IH]; simpl.
  - rewrite H. discriminate.
  - destruct (is_ws x); [exact IH|discriminate].
Qed.

(** A string that trims to the empty string is empty or starts with white
    space. *)
Lemma trim_empty_head c s : trim (c :: s) = [] -> is_ws c = true.
Proof.
  destruct (is_ws c) eqn:E; [reflexivity|].
  unfold trim, trimEnd. simpl. rewrite E. simpl. intros H.
  apply (f_equal (@rev N)) in H. rewrite rev_involutive in H. simpl in H.
  now apply trimStart_snoc in H.
Qed.

Lemma trimStart_all_ws s : forallb is_ws s = true -> trimStart s = [].
Proof.
  induction s as [|c s IH]; simpl; [reflexivity|].
  destruct (is_ws c); simpl; [exact IH|discriminate].
Qed.

(** A string of white space only trims to the empty string. *)
Lemma trim_all_ws s : forallb is_ws s = true -> trim s = [].
Proof.
  intros H. unfold trim, trimEnd. now rewrite (trimStart_all_ws _ H).
Qed.

Lemma trimStart_no_ws s :
  forallb (fun c => negb (is_ws c)) s = true -> trimStart s = s.
Proof.
  destruct s as [|c s]; simpl; [reflexivity|].
  now destruct (is_ws c).
Qed.

(** [trim] leaves a string without white space as it is. *)
Lemma trim_no_ws s : forallb (fun c => negb (is_ws c)) s = true -> trim s = s.
Proof.
  intros H. unfold trim, trimEnd. rewrite (trimStart_no_ws s H).
  rewrite trimStart_no_ws; [apply rev_involutive|].
  apply forallb_forall. intros x Hx. apply in_rev in Hx.
  rewrite forallb_forall in H. auto.
Qed.

Lemma not_ws_at_no_ws s :
  forallb not_ws_at s = true -> forallb (fun c => negb (is_ws c)) s = true.
Proof.
  rewrite !forallb_forall. intros H x Hx. specialize (H x Hx).
  unfold not_ws_at in H. now apply andb_prop in H as [H _].
Qed.

(** An address that matches [emailRegex] is stored as it was sent. *)
Lemma emailRegex_trim s : Regex.matches emailRegex s = true -> trim s = s.
Proof.
  intros H. apply emailRegex_shape in H
    as (a & b & c & -> & _ & _ & _ & Ha & Hb & Hc).
  apply trim_no_ws. rewrite !forallb_app.
  rewrite (not_ws_at_no_ws _ Ha), (not_ws_at_no_ws _ Hb), (not_ws_at_no_ws _ Hc).
  reflexivity.
Qed.


(** A blank address is not accepted. *)
Lemma blank_email_rejected b : blank (body_email b) = true -> accepted b = false.
Proof.
  unfold accepted, blank.
  destruct (body_email b) as [| |s|t str]; cbn [truthy toString]; intros H;
    rewrite ?andb_false_r; auto; try discriminate.
  destruct s as [|c s]; [now rewrite ?andb_false_r|].
  destruct (trim (c :: s)) eqn:T; [|discriminate].
  apply trim_empty_head in T.
  rewrite (emailRegex_leading_ws c s T). now rewrite andb_false_r.
Qed.


(** ** Updates *)

Lemma update_first_count q f l :
  fst (update_first q f l) = if existsb (matches q) l then 1 else 0.
Proof.
  induction l as [|d l IH]; simpl; [reflexivity|].
  destruct (matches q d); simpl; [reflexivity|].
  destruct (update_first q f l). exact IH.
Qed.


Lemma try_catch_responds A (m : M A) (f : jsstring -> A) w :
  exists res w', try_catch m (fun error => ret (f error)) w = (Ok res, w').
Proof.
  unfold try_catch, ret. destruct (m w) as [[a|error] w']; eauto.
Qed.

Ltac split_connect e w :=
  let E := fresh "E" in
  let d := fresh "d" in
  let m := fresh "m" in
  let w1 := fresh "w" in
  destruct (connectDB e w) as [[d|m] w1] eqn:E;
  [apply connectDB_resolves in E as (? & ? & ? & ? & ? & ?)
  |apply connectDB_rejects in E as (? & ? & ? & ? & ? & ? & ? & ?)].

Section ApiFacts.

Context {deployment : Deployment}.

(** The filter built from the path parameter. *)
Lemma idQuery_run id w :
  idQuery id w
  = (Ok (Some match ObjectId_parse id with
              | Some o => VOid o
              | None => VStr id
              end), w).
Proof.
  unfold idQuery, new_ObjectId. run_monad.
  now destruct (ObjectId_parse id).
Qed.

(** Every handler catches what it throws. *)
Lemma app_responds r e w : exists res w', app r e w = (Ok res, w').
Proof.
  destruct r; simpl;
    unfold health, getPodcasts, getVideos, getPodcastById, getVideoById,
      postContact, getMessages, getMessageById, markMessageRead, debug;
    try apply try_catch_responds.
  run_monad. eauto.
Qed.

(** *** Lookups by identifier *)

Lemma find_by_id v l : List.find (matches (Some v)) l = List.find (by_id v) l.
Proof. reflexivity. Qed.

(** The three lookups, when the store answers. *)
Lemma getPodcastById_up e id w :
  store_up e w OpFindOne PODCASTS_COLLECTION = true ->
  fst (serve (GET_podcasts_id id) e w)
  = found_or_404 "Podcast"
      (List.find (by_id match ObjectId_parse id with
                        | Some o => VOid o
                        | None => VStr id
                        end) (podcasts w)).
Proof.
  unfold store_up, serve, app, getPodcastById, findOne.
  intros [Hc Ho]%andb_prop. run_monad. split_connect e w; [|congruence].
  rewrite idQuery_run, Ho. simpl.
  match goal with H : podcasts _ = _ |- _ => rewrite H end.
  rewrite find_by_id. now destruct (List.find _ _).
Qed.

Lemma getVideoById_up e id w :
  store_up e w OpFindOne VIDEOS_COLLECTION = true ->
  fst (serve (GET_videos_id id) e w)
  = found_or_404 "Video"
      (List.find (by_id match ObjectId_parse id with
                        | Some o => VOid o
                        | None => VStr id
                        end) (videos w)).
Proof.
  unfold store_up, serve, app, getVideoById, findOne.
  intros [Hc Ho]%andb_prop. run_monad. split_connect e w; [|congruence].
  rewrite idQuery_run, Ho. simpl.
  match goal with H : videos _ = _ |- _ => rewrite H end.
  rewrite find_by_id. now destruct (List.find _ _).
Qed.

Lemma getMessageById_up e id w :
  store_up e w OpFindOne MESSAGES_COLLECTION = true ->
  fst (serve (GET_messages_id id) e w)
  = found_or_404 "Message"
      (List.find (by_id match ObjectId_parse id with
                        | Some o => VOid o
                        | None => VStr id
                        end) (messages w)).
Proof.
  unfold store_up, serve, app, getMessageById, findOne.
  intros [Hc Ho]%andb_prop. run_monad. split_connect e w; [|congruence].
  rewrite idQuery_run, Ho. simpl.
  match goal with H : messages _ = _ |- _ => rewrite H end.
  rewrite find_by_id. now destruct (List.find _ _).
Qed.

(** The update of a message, when the store answers: the response, and the
    messages afterwards. *)
Lemma markMessageRead_up e id w :
  store_up e w OpUpdateOne MESSAGES_COLLECTION = true ->
  let key := match ObjectId_parse id with
             | Some o => VOid o
             | None => VStr id
             end in
  let upd := set_fields [("read", VBool true); ("readAt", VDate (now e))] in
  let w' := snd (serve (PUT_messages_id_read id) e w) in
  fst (serve (PUT_messages_id_read id) e w)
  = (if existsb (by_id key) (messages w)
     then res_json (BSuccess true (js "Message marked as read"))
     else res_status_json 404 (BError (js "Message not found") None))
  /\ messages w' = snd (update_first (Some key) upd (messages w))
  /\ podcasts w' = podcasts w /\ videos w' = videos w
  /\ (forall e', can_connect e' w' = true).
Proof.
  unfold store_up, serve, app, markMessageRead, updateOne.
  intros [Hc Ho]%andb_prop. run_monad. split_connect e w; [|congruence].
  rewrite idQuery_run, Ho. simpl.
  match goal with H : messages _ = _ |- _ => rewrite H end.
  match goal with
  | |- context [update_first ?q ?f ?l] =>
      pose proof (update_first_count q f l) as U;
      destruct (update_first q f l) as [n l']
  end.
  simpl in U. subst n. change (matches (Some ?v)) with (by_id v).
  match goal with H : connected _ _ |- _ => destruct H as [Hi Hd] end.
  destruct (existsb _ (messages w)) eqn:X; simpl;
    unfold can_connect; simpl; rewrite Hi, Hd; repeat split; auto.
Qed.

(** The four routes with an identifier, when the store does not answer. *)
Lemma by_id_routes_down e id w :
  (store_up e w OpFindOne PODCASTS_COLLECTION = false ->
   fst (serve (GET_podcasts_id id) e w)
   = res_status_json 500 (BError (js "Internal server error") (Some (failure e))))
  /\ (store_up e w OpFindOne VIDEOS_COLLECTION = false ->
      fst (serve (GET_videos_id id) e w)
      = res_status_json 500 (BError (js "Internal server error") (Some (failure e))))
  /\ (store_up e w OpFindOne MESSAGES_COLLECTION = false ->
      fst (serve (GET_messages_id id) e w)
      = res_status_json 500 (BError (js "Internal server error") (Some (failure e))))
  /\ (store_up e w OpUpdateOne MESSAGES_COLLECTION = false ->
      fst (serve (PUT_messages_id_read id) e w)
      = res_status_json 500 (BError (js "Internal server error") (Some (failure e)))).
Proof.
  unfold store_up, serve, app, getPodcastById,
    getVideoById, getMessageById, markMessageRead, findOne, updateOne.
  repeat split; intros H; run_monad; split_connect e w;
    try (subst; reflexivity);
    rewrite idQuery_run;
    match goal with Hc : can_connect _ _ = true |- _ => rewrite Hc in H end;
    simpl in H; rewrite H; reflexivity.
Qed.

(** C1.  In Get Podcast, Get Video, Get Message and Mark Message Read the
    path identifier is first read as an [ObjectId]; the filter is then
    equality of [_id] with that [ObjectId].  When the identifier cannot be
    read as one, the filter is equality of [_id] with the path segment as a
    string.  With either filter, and so also when the identifier is not an
    [ObjectId], the response is the document found (for Mark Message Read,
    the success message) or 404 whenever the store answers; the status is 500
    exactly when the store does not answer. *)
Theorem C1_path_identifier_fallback e id w :
  let lookup_by := fun key : value =>
    (store_up e w OpFindOne PODCASTS_COLLECTION = true ->
     fst (serve (GET_podcasts_id id) e w)
     = found_or_404 "Podcast" (List.find (by_id key) (podcasts w)))
    /\ (store_up e w OpFindOne VIDEOS_COLLECTION = true ->
        fst (serve (GET_videos_id id) e w)
        = found_or_404 "Video" (List.find (by_id key) (videos w)))
    /\ (store_up e w OpFindOne MESSAGES_COLLECTION = true ->
        fst (serve (GET_messages_id id) e w)
        = found_or_404 "Message" (List.find (by_id key) (messages w)))
    /\ (store_up e w OpUpdateOne MESSAGES_COLLECTION = true ->
        fst (serve (PUT_messages_id_read id) e w)
        = if existsb (by_id key) (messages w)
          then res_json (BSuccess true (js "Message marked as read"))
          else res_status_json 404 (BError (js "Message not found") None))
    /\ (status (fst (serve (GET_podcasts_id id) e w)) = 500%Z
        <-> store_up e w OpFindOne PODCASTS_COLLECTION = false)
    /\ (status (fst (serve (GET_videos_id id) e w)) = 500%Z
        <-> store_up e w OpFindOne VIDEOS_COLLECTION = false)
    /\ (status (fst (serve (GET_messages_id id) e w)) = 500%Z
        <-> store_up e w OpFindOne MESSAGES_COLLECTION = false)
    /\ (status (fst (serve (PUT_messages_id_read id) e w)) = 500%Z
        <-> store_up e w OpUpdateOne MESSAGES_COLLECTION = false) in
  (forall o, ObjectId_parse id = Some o -> lookup_by (VOid o))
  /\ (ObjectId_parse id = None -> lookup_by (VStr id)).
Proof.
  assert (G : forall key,
             key = match ObjectId_parse id with
                   | Some o => VOid o
                   | None => VStr id
                   end ->
             ((store_up e w OpFindOne PODCASTS_COLLECTION = true ->
     fst (serve (GET_podcasts_id id) e w)
     = found_or_404 "Podcast" (List.find (by_id key) (podcasts w)))
    /\ (store_up e w OpFindOne VIDEOS_COLLECTION = true ->
        fst (serve (GET_videos_id id) e w)
        = found_or_404 "Video" (List.find (by_id key) (videos w)))
    /\ (store_up e w OpFindOne MESSAGES_COLLECTION = true ->
        fst (serve (GET_messages_id id) e w)
        = found_or_404 "Message" (List.find (by_id key) (messages w)))
    /\ (store_up e w OpUpdateOne MESSAGES_COLLECTION = true ->
        fst (serve (PUT_messages_id_read id) e w)
        = if existsb (by_id key) (messages w)
          then res_json (BSuccess true (js "Message marked as read"))
          else res_status_json 404 (BError (js "Message not found") None))
    /\ (status (fst (serve (GET_podcasts_id id) e w)) = 500%Z
        <-> store_up e w OpFindOne PODCASTS_COLLECTION = false)
    /\ (status (fst (serve (GET_videos_id id) e w)) = 500%Z
        <-> store_up e w OpFindOne VIDEOS_COLLECTION = false)
    /\ (status (fst (serve (GET_messages_id id) e w)) = 500%Z
        <-> store_up e w OpFindOne MESSAGES_COLLECTION = false)
    /\ (status (fst (serve (PUT_messages_id_read id) e w)) = 500%Z
        <-> store_up e w OpUpdateOne MESSAGES_COLLECTION = false))).
  { intros key ->.
    destruct (by_id_routes_down e id w) as (D1 & D2 & D3 & D4).
    assert (U1 := getPodcastById_up e id w).
    assert (U2 := getVideoById_up e id w).
    assert (U3 := getMessageById_up e id w).
    assert (U4 := fun H => proj1 (markMessageRead_up e id w H)).
    simpl in U4.
    repeat split; auto.
    - intros S. destruct (store_up e w OpFindOne PODCASTS_COLLECTION); [|reflexivity].
      rewrite U1 in S by reflexivity. unfold found_or_404 in S.
      destruct (List.find _ (podcasts w)); simpl in S; discriminate.
    - intros H. now rewrite D1.
    - intros S. destruct (store_up e w OpFindOne VIDEOS_COLLECTION); [|reflexivity].
      rewrite U2 in S by reflexivity. unfold found_or_404 in S.
      destruct (List.find _ (videos w)); simpl in S; discriminate.
    - intros H. now rewrite D2.
    - intros S. destruct (store_up e w OpFindOne MESSAGES_COLLECTION); [|reflexivity].
      rewrite U3 in S by reflexivity. unfold found_or_404 in S.
      destruct (List.find _ (messages w)); simpl in S; discriminate.
    - intros H. now rewrite D3.
    - intros S. destruct (store_up e w OpUpdateOne MESSAGES_COLLECTION); [|reflexivity].
      rewrite U4 in S by reflexivity.
      destruct (existsb _ (messages w)); simpl in S; discriminate.
    - intros H. now rewrite D4. }
  cbv zeta. split.
  - intros o Ho. apply G. now rewrite Ho.
  - intros Hn. apply G. now rewrite Hn.
Qed.

(** *** What a request does to the process *)

Ltac run_ops :=
  repeat match goal with
    | |- context [idQuery ?id ?w0] => rewrite (idQuery_run id w0)
    | |- context [findOne ?e ?c ?q ?w0] =>
        let E := fresh "E" in
        destruct (findOne e c q w0) as [[?|?] ?] eqn:E;
        apply findOne_world in E; subst
    | |- context [toArray ?e ?c ?w0] =>
        let E := fresh "E" in
        destruct (toArray e c w0) as [[?|?] ?] eqn:E;
        apply toArray_world in E; subst
    | |- context [countDocuments ?e ?c ?q ?w0] =>
        let E := fresh "E" in
        destruct (countDocuments e c q w0) as [[?|?] ?] eqn:E;
        apply countDocuments_world in E; subst
    | |- context [call_trim ?n ?x ?w0] =>
        let E := fresh "E" in
        destruct (call_trim n x w0) as [[?|?] ?] eqn:E;
        apply call_trim_world in E; subst
    | |- context [insertOne ?e ?c ?d ?w0] =>
        let E := fresh "E" in
        destruct (insertOne e c d w0) as [[?|?] ?] eqn:E;
        apply insertOne_process in E
    | |- context [updateOne ?e ?c ?q ?u ?w0] =>
        let E := fresh "E" in
        destruct (updateOne e c q u w0) as [[?|?] ?] eqn:E;
        apply updateOne_process in E
    | |- context [match ?o with Some _ => _ | None => _ end] => destruct o
    | |- context [if ?b then _ else _] => destruct b
    end.

(** A request leaves the globals of the process as they are or as
    [connectDB] leaves them. *)
Lemma serve_process r e w :
  process (snd (serve r e w)) = process w
  \/ process (snd (serve r e w)) = process (snd (connectDB e w)).
Proof.
  unfold serve.
  destruct r; simpl;
    unfold health, getPodcasts, getVideos, getPodcastById, getVideoById,
      postContact, getMessages, getMessageById, markMessageRead, debug;
    unfold try_catch, bind;
    try (destruct (connectDB e w) as [[?|?] ?]; run_ops; simpl; now auto).
  destruct (_ || _); [now left|].
  destruct (negb _); [now left|].
  destruct (connectDB e w) as [[?|?] ?]; run_ops; simpl; now auto.
Qed.

Lemma connectDB_flag_agrees e w :
  flag_agrees w -> flag_agrees (snd (connectDB e w)).
Proof.
  unfold flag_agrees. intros H.
  destruct (connectDB e w) as [[d|m] w'] eqn:E; simpl.
  - apply connectDB_resolves in E as (_ & [Hi Hd] & _). rewrite Hi, Hd.
    split; eauto.
  - apply connectDB_rejects in E as (_ & _ & Hi & Hd & _). now rewrite Hi, Hd.
Qed.

Lemma flag_agrees_process w w' :
  process w' = process w -> flag_agrees w -> flag_agrees w'.
Proof.
  unfold process, flag_agrees. intros H. inversion H as [[H1 H2 H3]].
  now rewrite H1, H2.
Qed.

Lemma reachable_flag_agrees w : reachable w -> flag_agrees w.
Proof.
  induction 1 as [ps vs ms|r e w _ IH|c l w _ IH].
  - unfold flag_agrees; simpl. split; [discriminate|intros [d H]; discriminate].
  - destruct (serve_process r e w) as [H|H].
    + eapply flag_agrees_process; eauto.
    + eapply flag_agrees_process; [exact H|]. now apply connectDB_flag_agrees.
  - eapply flag_agrees_process; [apply process_set_documents|exact IH].
Qed.

Lemma connectDB_first e w :
  isConnected w = false ->
  connect_ok e = true ->
  exists d w',
    connectDB e w = (Ok d, w') /\ connected w' d
    /\ connects w' = S (connects w).
Proof.
  intros Hi Ho.
  unfold connectDB, connected, client_connect, client_db, set_db,
    set_isConnected.
  run_monad. rewrite Hi, Ho. simpl. do 2 eexists. repeat split; reflexivity.
Qed.

Lemma serve_keeps_flag r e w :
  isConnected w = true -> isConnected (snd (serve r e w)) = true.
Proof.
  intros Hi.
  assert (P : forall w1 w2, process w1 = process w2 ->
                            isConnected w1 = isConnected w2)
    by (unfold process; intros ? ? H; now inversion H).
  destruct (serve_process r e w) as [H|H]; apply P in H; rewrite H; auto.
  destruct (connectDB e w) as [[d|m] w'] eqn:E; simpl.
  - now apply connectDB_resolves in E as (_ & [? _] & _).
  - apply connectDB_rejects in E as (_ & _ & H' & _). congruence.
Qed.

Lemma serve_keeps_connected r e w d :
  connected w d ->
  connected (snd (serve r e w)) d /\ connects (snd (serve r e w)) = connects w.
Proof.
  intros Hc.
  assert (P : forall w', process w' = process w ->
                         connected w' d /\ connects w' = connects w).
  { unfold process, connected. intros w' H. inversion H as [[H1 H2 H3]].
    destruct Hc. repeat split; congruence. }
  destruct (serve_process r e w) as [H|H]; [now apply P|].
  rewrite (connectDB_reuse e Hc) in H. now apply P.
Qed.

(** C7.  The connection goes from not connected to connected and never
    back.  A call of [connectDB] in a connected process returns the handle
    that is there and calls [client.connect()] no more; no request takes the
    process out of the connected state or changes its handle.  A call of
    [connectDB] whose [client.connect()] fails leaves [isConnected] and [db]
    as they were, and the next call makes the whole attempt again: it calls
    [client.connect()] once more and, if that resolves, the process is
    connected.  [isConnected] also stays set however calls of [connectDB]
    interleave at their [await]. *)
Theorem C7_connection_one_way e w :
  (forall d, connected w d -> connectDB e w = (Ok d, w))
  /\ (forall evs, isConnected w = true -> isConnected (interleave evs w) = true)
  /\ (forall r d, connected w d ->
        connected (snd (serve r e w)) d
        /\ connects (snd (serve r e w)) = connects w)
  /\ (forall r, isConnected w = true -> isConnected (snd (serve r e w)) = true)
  /\ (isConnected w = false -> connect_ok e = false ->
      exists w',
        connectDB e w = (Throw (failure e), w')
        /\ isConnected w' = false /\ db w' = db w
        /\ connects w' = S (connects w)
        /\ forall e', connect_ok e' = true ->
             exists d w'',
               connectDB e' w' = (Ok d, w'') /\ connected w'' d
               /\ connects w'' = S (connects w')).
Proof.
  split; [intros d; apply connectDB_reuse|].
  split; [intros evs; apply interleave_keeps_flag|].
  split; [intros r d; apply serve_keeps_connected|].
  split; [intros r; apply serve_keeps_flag|].
  intros Hi Ho.
  destruct (connectDB e w) as [[d|m] w'] eqn:E.
  - apply connectDB_resolves in E as (Hc & _). unfold can_connect in Hc.
    rewrite Hi in Hc. congruence.
  - apply connectDB_rejects in E as (_ & -> & Hi' & Hd' & Hn & _).
    exists w'. repeat split; try congruence.
    intros e' Ho'. apply connectDB_first; congruence.
Qed.

(** C9.  The health endpoint answers 200 in every world and leaves the world
    as it is; its body holds the status, the time of the request and a
    database field that is "connected" when [isConnected] is set and
    "disconnected" otherwise.  In the worlds a process can reach,
    [isConnected] is set exactly when [db] holds a handle. *)
Theorem C9_health_always_200 e w :
  exists database,
    serve GET_health e w
    = ({| status := 200; json := BHealth (js "ok") (now e) database |}, w)
    /\ (database = js "connected" \/ database = js "disconnected")
    /\ (database = js "connected" <-> isConnected w = true)
    /\ (reachable w ->
        (database = js "connected" <-> exists d, db w = Some d)
        /\ (database = js "disconnected" <-> db w = None)).
Proof.
  exists (if isConnected w then js "connected" else js "disconnected").
  split; [reflexivity|].
  split; [destruct (isConnected w); auto|].
  assert (N : js "connected" <> js "disconnected") by (cbv; discriminate).
  split.
  - destruct (isConnected w); split; auto; discriminate.
  - intros R. apply reachable_flag_agrees in R. unfold flag_agrees in R.
    destruct R as [R1 R2].
    destruct (isConnected w), (db w) as [d|]; split; split; eauto;
      try (intros; exfalso; congruence);
      intros H; exfalso;
      first [ destruct (R1 eq_refl); discriminate
            | assert (false = true) by eauto; discriminate
            | destruct H; discriminate ].
Qed.

(** *** Listings *)

Lemma filter_all l : filter (matches None) l = l.
Proof. induction l; simpl; congruence. Qed.

Lemma getPodcasts_up e w :
  store_up e w OpFind PODCASTS_COLLECTION = true ->
  fst (serve GET_podcasts e w) = res_json (BDocs (sort "date" (-1) (podcasts w))).
Proof.
  unfold store_up, serve, app, getPodcasts, toArray.
  intros [Hc Ho]%andb_prop. run_monad. split_connect e w; [|congruence].
  rewrite Ho. simpl. rewrite filter_all. congruence.
Qed.

Lemma getVideos_up e w :
  store_up e w OpFind VIDEOS_COLLECTION = true ->
  fst (serve GET_videos e w) = res_json (BDocs (sort "date" (-1) (videos w))).
Proof.
  unfold store_up, serve, app, getVideos, toArray.
  intros [Hc Ho]%andb_prop. run_monad. split_connect e w; [|congruence].
  rewrite Ho. simpl. rewrite filter_all. congruence.
Qed.

Lemma getMessages_up e w :
  store_up e w OpFind MESSAGES_COLLECTION = true ->
  fst (serve GET_messages e w)
  = res_json (BDocs (sort "createdAt" (-1) (messages w))).
Proof.
  unfold store_up, serve, app, getMessages, toArray.
  intros [Hc Ho]%andb_prop. run_monad. split_connect e w; [|congruence].
  rewrite Ho. simpl. rewrite filter_all. congruence.
Qed.

(** The three listings, when the store does not answer. *)
Lemma listings_down e w :
  (store_up e w OpFind PODCASTS_COLLECTION = false ->
   fst (serve GET_podcasts e w)
   = res_status_json 503 (BError (js "Service unavailable") (Some (failure e))))
  /\ (store_up e w OpFind VIDEOS_COLLECTION = false ->
      fst (serve GET_videos e w)
      = res_status_json 503 (BError (js "Service unavailable") (Some (failure e))))
  /\ (store_up e w OpFind MESSAGES_COLLECTION = false ->
      fst (serve GET_messages e w)
      = res_status_json 500 (BError (js "Internal server error") (Some (failure e)))).
Proof.
  unfold store_up, serve, app, getPodcasts, getVideos, getMessages, toArray.
  repeat split; intros H; run_monad; split_connect e w;
    try (subst; reflexivity);
    match goal with Hc : can_connect _ _ = true |- _ => rewrite Hc in H end;
    simpl in H; rewrite H; reflexivity.
Qed.

Lemma sort_descending k l : descending k (sort k (-1) l).
Proof. exact (sort_sorted k (-1) l). Qed.

Lemma sort_nil k dir l : l = [] -> sort k dir l = [].
Proof. now intros ->. Qed.

(** C8.  When the store answers, List Podcasts and List Videos return, with
    status 200, all the documents of the collection in descending order of
    [date], and List Messages all the messages in descending order of
    [createdAt]; over an empty collection the array is empty. *)
Theorem C8_listings_sorted_descending e w :
  (store_up e w OpFind PODCASTS_COLLECTION = true ->
   exists l,
     fst (serve GET_podcasts e w) = {| status := 200; json := BDocs l |}
     /\ Permutation (podcasts w) l /\ descending "date" l
     /\ (podcasts w = [] -> l = []))
  /\ (store_up e w OpFind VIDEOS_COLLECTION = true ->
      exists l,
        fst (serve GET_videos e w) = {| status := 200; json := BDocs l |}
        /\ Permutation (videos w) l /\ descending "date" l
        /\ (videos w = [] -> l = []))
  /\ (store_up e w OpFind MESSAGES_COLLECTION = true ->
      exists l,
        fst (serve GET_messages e w) = {| status := 200; json := BDocs l |}
        /\ Permutation (messages w) l /\ descending "createdAt" l
        /\ (messages w = [] -> l = [])).
Proof.
  repeat split; intros H.
  - exists (sort "date" (-1) (podcasts w)).
    rewrite (getPodcasts_up _ _ H).
    auto using sort_perm, sort_descending, sort_nil.
  - exists (sort "date" (-1) (videos w)).
    rewrite (getVideos_up _ _ H).
    auto using sort_perm, sort_descending, sort_nil.
  - exists (sort "createdAt" (-1) (messages w)).
    rewrite (getMessages_up _ _ H).
    auto using sort_perm, sort_descending, sort_nil.
Qed.

(** *** The contact form *)

Lemma postContact_rejected e b w :
  accepted b = false ->
  exists error,
    serve (POST_contact b) e w = (res_status_json 400 (BError error None), w).
Proof.
  unfold accepted, serve, app, postContact. run_monad.
  destruct (truthy (body_name b)), (truthy (body_email b)),
    (truthy (body_message b)); simpl; eauto.
  intros ->. simpl. eauto.
Qed.

Lemma postContact_accepted e b w :
  accepted b = true ->
  (status (fst (serve (POST_contact b) e w)) = 201%Z
   \/ status (fst (serve (POST_contact b) e w)) = 500%Z)
  /\ (store_up e w OpInsertOne MESSAGES_COLLECTION = false ->
      status (fst (serve (POST_contact b) e w)) = 500%Z).
Proof.
  unfold accepted, store_up, serve, app, postContact, insertOne. run_monad.
  destruct (truthy (body_name b)), (truthy (body_email b)),
    (truthy (body_message b)); simpl; try discriminate.
  intros ->. simpl.
  split_connect e w; [|simpl; auto].
  match goal with Hc : can_connect _ _ = true |- _ => rewrite Hc end. simpl.
  destruct (body_name b), (body_email b), (body_message b); simpl; auto.
  destruct (op_ok e OpInsertOne MESSAGES_COLLECTION); simpl; auto.
  destruct (existsb _ _); simpl; split; auto; discriminate.
Qed.

(** C4.  A contact request is answered 400 exactly when one of the three
    values is missing (falsy) or the address does not have the shape of
    [emailRegex]; a request answered 400 leaves the whole world, and so the
    messages collection, as it was. *)
Theorem C4_rejected_contact_inserts_nothing e b w :
  (status (fst (serve (POST_contact b) e w)) = 400%Z <-> accepted b = false)
  /\ (status (fst (serve (POST_contact b) e w)) = 400%Z ->
      snd (serve (POST_contact b) e w) = w
      /\ messages (snd (serve (POST_contact b) e w)) = messages w).
Proof.
  assert (A : status (fst (serve (POST_contact b) e w)) = 400%Z ->
              accepted b = false).
  { destruct (accepted b) eqn:E; [|reflexivity].
    destruct (postContact_accepted e b w E) as [[H|H] _]; rewrite H; discriminate. }
  split; [split; [exact A|]|].
  - intros E. destruct (postContact_rejected e b w E) as [error ->]. reflexivity.
  - intros H. apply A in H.
    destruct (postContact_rejected e b w H) as [error ->]. auto.
Qed.

(** *** The debug route *)

Lemma debug_down e w :
  debug_up e w = false ->
  fst (serve GET_debug e w)
  = res_status_json 503 (BError (js "Debug error") (Some (failure e))).
Proof.
  unfold debug_up, serve, app, debug, countDocuments, findOne.
  intros H. run_monad. split_connect e w; [|subst; reflexivity].
  match goal with Hc : can_connect _ _ = true |- _ => rewrite Hc in H end.
  simpl in H.
  destruct (op_ok e OpCountDocuments PODCASTS_COLLECTION); simpl in *; auto.
  destruct (op_ok e OpCountDocuments VIDEOS_COLLECTION); simpl in *; auto.
  destruct (op_ok e OpFindOne PODCASTS_COLLECTION); simpl in *; auto.
  destruct (op_ok e OpFindOne VIDEOS_COLLECTION); simpl in *; auto.
  discriminate.
Qed.

(** The samples of the debug report are [null] over empty collections. *)
Lemma debug_up_samples e w :
  debug_up e w = true ->
  exists info,
    fst (serve GET_debug e w) = res_json (BDebug info)
    /\ samplePodcast info = sample_of (hd_error (podcasts w))
    /\ sampleVideo info = sample_of (hd_error (videos w))
    /\ stats_podcastCount info = List.length (podcasts w)
    /\ stats_videoCount info = List.length (videos w).
Proof.
  unfold debug_up, serve, app, debug, countDocuments, findOne.
  intros H. repeat (apply andb_prop in H as [H ?]).
  run_monad. split_connect e w; [|congruence].
  repeat match goal with Ho : op_ok _ _ _ = true |- _ => rewrite Ho; clear Ho end.
  simpl. eexists. split; [reflexivity|]. simpl.
  repeat match goal with Hd : _ w0 = _ w |- _ => rewrite Hd; clear Hd end.
  rewrite !filter_all.
  repeat split; f_equal.
  - now destruct (podcasts w).
  - now destruct (videos w).
Qed.

(** C3, as the program has it.  When the store does not answer, List
    Podcasts, List Videos and Debug answer 503; List Messages, Get Podcast,
    Get Video, Get Message, Mark Message Read and an accepted Submit Contact
    answer 500. *)
Theorem C3_store_failure_status e w :
  (store_up e w OpFind PODCASTS_COLLECTION = false ->
   status (fst (serve GET_podcasts e w)) = 503%Z)
  /\ (store_up e w OpFind VIDEOS_COLLECTION = false ->
      status (fst (serve GET_videos e w)) = 503%Z)
  /\ (debug_up e w = false -> status (fst (serve GET_debug e w)) = 503%Z)
  /\ (store_up e w OpFind MESSAGES_COLLECTION = false ->
      status (fst (serve GET_messages e w)) = 500%Z)
  /\ (forall id, store_up e w OpFindOne PODCASTS_COLLECTION = false ->
                 status (fst (serve (GET_podcasts_id id) e w)) = 500%Z)
  /\ (forall id, store_up e w OpFindOne VIDEOS_COLLECTION = false ->
                 status (fst (serve (GET_videos_id id) e w)) = 500%Z)
  /\ (forall id, store_up e w OpFindOne MESSAGES_COLLECTION = false ->
                 status (fst (serve (GET_messages_id id) e w)) = 500%Z)
  /\ (forall id, store_up e w OpUpdateOne MESSAGES_COLLECTION = false ->
                 status (fst (serve (PUT_messages_id_read id) e w)) = 500%Z)
  /\ (forall b, accepted b = true ->
                store_up e w OpInsertOne MESSAGES_COLLECTION = false ->
                status (fst (serve (POST_contact b) e w)) = 500%Z).
Proof.
  destruct (listings_down e w) as (L1 & L2 & L3).
  repeat split.
  - intros H. now rewrite L1.
  - intros H. now rewrite L2.
  - intros H. now rewrite debug_down.
  - intros H. now rewrite L3.
  - intros id H. destruct (by_id_routes_down e id w) as (D & _). now rewrite D.
  - intros id H. destruct (by_id_routes_down e id w) as (_ & D & _). now rewrite D.
  - intros id H. destruct (by_id_routes_down e id w) as (_ & _ & D & _). now rewrite D.
  - intros id H. destruct (by_id_routes_down e id w) as (_ & _ & _ & D). now rewrite D.
  - intros b A H. now apply postContact_accepted.
Qed.

(** C2, as the program has it.  A contact request in which the name, the
    address or the message is absent or falsy (null, the empty string, zero,
    false) is answered 400, "All fields are required"; so is, with one message
    or the other, a request whose address is empty once trimmed.  In both
    cases the world is left as it was.  Nothing is said here of a name or a
    message made of white space only. *)
Theorem C2_missing_field_400 e b w :
  (truthy (body_name b) = false \/ truthy (body_email b) = false
   \/ truthy (body_message b) = false ->
   serve (POST_contact b) e w
   = (res_status_json 400 (BError (js "All fields are required") None), w))
  /\ (blank (body_email b) = true ->
      status (fst (serve (POST_contact b) e w)) = 400%Z
      /\ snd (serve (POST_contact b) e w) = w).
Proof.
  split.
  - unfold serve, app, postContact. run_monad.
    intros [H|[H|H]]; rewrite H; simpl; rewrite ?orb_true_r; reflexivity.
  - intros H. apply blank_email_rejected in H.
    destruct (postContact_rejected e b w H) as [error ->]. auto.
Qed.

(** *** Marking a message as read *)

(** C6.  When the store answers and a message matches the identifier, Mark
    Message Read answers 200 the first time and 200 again the second time,
    and after each of the two the message that matches has [read = true].
    The answer is 404 exactly when no message matches, the first time and the
    second alike: whether the message is already read plays no part. *)
Theorem C6_mark_read_idempotent e1 e2 id w :
  let key := match ObjectId_parse id with
             | Some o => VOid o
             | None => VStr id
             end in
  let s1 := serve (PUT_messages_id_read id) e1 w in
  let s2 := serve (PUT_messages_id_read id) e2 (snd s1) in
  store_up e1 w OpUpdateOne MESSAGES_COLLECTION = true ->
  op_ok e2 OpUpdateOne MESSAGES_COLLECTION = true ->
  (forall d,
      List.find (by_id key) (messages w) = Some d ->
      status (fst s1) = 200%Z /\ status (fst s2) = 200%Z
      /\ (exists d1, List.find (by_id key) (messages (snd s1)) = Some d1
                     /\ field "read" d1 = Some (VBool true))
      /\ (exists d2, List.find (by_id key) (messages (snd s2)) = Some d2
                     /\ field "read" d2 = Some (VBool true)))
  /\ (status (fst s1) = 404%Z <-> List.find (by_id key) (messages w) = None)
  /\ (status (fst s2) = 404%Z
      <-> List.find (by_id key) (messages (snd s1)) = None).
Proof.
  intros key s1 s2 U1 O2.
  destruct (markMessageRead_up e1 id w U1) as (R1 & M1 & _ & _ & C1).
  fold key in R1, M1. fold s1 in R1, M1, C1.
  assert (U2 : store_up e2 (snd s1) OpUpdateOne MESSAGES_COLLECTION = true)
    by (unfold store_up; now rewrite C1, O2).
  destruct (markMessageRead_up e2 id (snd s1) U2) as (R2 & M2 & _).
  fold key in R2, M2. fold s2 in R2, M2.
  assert (S : forall (s : response * World) l,
             fst s = (if existsb (by_id key) l
                      then res_json (BSuccess true (js "Message marked as read"))
                      else res_status_json 404 (BError (js "Message not found") None)) ->
             (status (fst s) = 404%Z <-> List.find (by_id key) l = None)
             /\ (forall d, List.find (by_id key) l = Some d -> status (fst s) = 200%Z)).
  { intros s l ->. rewrite find_none_existsb.
    destruct (existsb (by_id key) l) eqn:X; simpl; split;
      try (split; congruence); auto.
    intros d Hd. apply find_none_existsb in X. congruence. }
  assert (F : forall t l d,
             List.find (by_id key) l = Some d ->
             exists d', List.find (by_id key)
                          (snd (update_first (Some key)
                                  (set_fields [("read", VBool true); ("readAt", VDate t)]) l))
                        = Some d'
                        /\ field "read" d' = Some (VBool true)).
  { intros t l d Hd.
    destruct (update_first_found (Some key)
                (set_fields [("read", VBool true); ("readAt", VDate t)]) l Hd)
      as (l1 & l2 & -> & H1 & H2 & ->).
    eexists. split.
    - apply find_middle; [exact H1|].
      change (by_id key) with (matches (Some key)). now rewrite mark_read_matches.
    - apply mark_read_fields. }
  split; [|split; [apply (S s1), R1|apply (S s2), R2]].
  intros d Hd.
  destruct (F (now e1) _ _ Hd) as (d1 & Hd1 & Hr1). rewrite <- M1 in Hd1.
  destruct (F (now e2) _ _ Hd1) as (d2 & Hd2 & Hr2). rewrite <- M2 in Hd2.
  repeat split; eauto.
  - eapply (S s1); eauto.
  - eapply (S s2); eauto.
Qed.

(** C10.  When the store answers and a message matches the identifier, Mark
    Message Read replaces that message, in its place, by one whose [read] is
    [true], whose [readAt] is the time of the request, and whose other fields
    ([_id], [name], [email], [message], [createdAt] and any other) are those
    it had; this holds whatever [read] and [readAt] were before.  The other
    messages, the podcasts and the videos are left as they were. *)
Theorem C10_mark_read_frame e id w d :
  let key := match ObjectId_parse id with
             | Some o => VOid o
             | None => VStr id
             end in
  let w' := snd (serve (PUT_messages_id_read id) e w) in
  store_up e w OpUpdateOne MESSAGES_COLLECTION = true ->
  List.find (by_id key) (messages w) = Some d ->
  exists l1 l2 d',
    messages w = l1 ++ d :: l2
    /\ List.find (by_id key) l1 = None
    /\ messages w' = l1 ++ d' :: l2
    /\ field "read" d' = Some (VBool true)
    /\ field "readAt" d' = Some (VDate (now e))
    /\ (forall k, k <> "read" -> k <> "readAt" -> field k d' = field k d)
    /\ podcasts w' = podcasts w /\ videos w' = videos w.
Proof.
  intros key w' U Hd.
  destruct (markMessageRead_up e id w U) as (_ & M & P & V & _).
  fold key in M. fold w' in M, P, V.
  destruct (update_first_found (Some key)
              (set_fields [("read", VBool true); ("readAt", VDate (now e))])
              (messages w) Hd)
    as (l1 & l2 & E & H1 & H2 & H3).
  rewrite H3 in M.
  destruct (mark_read_fields (now e) d) as (F1 & F2 & F3).
  exists l1, l2,
    (set_fields [("read", VBool true); ("readAt", VDate (now e))] d).
  split; [exact E|]. split; [exact H1|]. split; [exact M|].
  split; [exact F1|]. split; [exact F2|]. split; [exact F3|]. now split.
Qed.

(** An accepted contact request of three strings, when the store answers and
    the generated identifier is new. *)
Lemma postContact_up e name email message w :
  let b := {| body_name := JStr name; body_email := JStr email;
              body_message := JStr message |} in
  let d := [("_id", VOid (newId e)); ("name", VStr (trim name));
            ("email", VStr (trim email)); ("message", VStr (trim message));
            ("createdAt", VDate (now e)); ("read", VBool false)] in
  let w' := snd (serve (POST_contact b) e w) in
  accepted b = true ->
  store_up e w OpInsertOne MESSAGES_COLLECTION = true ->
  existsb (by_id (VOid (newId e))) (messages w) = false ->
  fst (serve (POST_contact b) e w)
  = res_status_json 201
      (BCreated true (js "Message sent successfully") (VOid (newId e)))
  /\ messages w' = messages w ++ [d]
  /\ podcasts w' = podcasts w /\ videos w' = videos w
  /\ (forall e', can_connect e' w' = true).
Proof.
  intros b d w' A [Hc Ho]%andb_prop X. subst b d w'.
  unfold accepted in A. cbn [body_name body_email body_message] in A.
  apply andb_prop in A as [A Hr]. apply andb_prop in A as [A Tm].
  apply andb_prop in A as [Tn Te].
  unfold serve, app, postContact, insertOne, try_catch, bind.
  cbn [body_name body_email body_message]. rewrite Tn, Te, Tm, Hr.
  cbn [negb orb].
  split_connect e w; [|congruence].
  unfold call_trim, ret, get, put, throw. rewrite Ho.
  cbn [field String.eqb Ascii.eqb Bool.eqb sort_key documents].
  change (matches (Some ?v)) with (by_id v).
  match goal with H : messages _ = messages w |- _ => rewrite H end.
  rewrite X. cbn [fst snd set_documents messages podcasts videos].
  match goal with H : connected _ _ |- _ => destruct H as [Hi Hd] end.
  unfold can_connect. cbn [isConnected db]. rewrite Hi, Hd. repeat split; auto.
Qed.

(** C5.  For a contact request whose name and message are non-empty strings
    and whose address is a string that matches [emailRegex], when the store
    answers and the identifier the driver generates is new in the collection:
    the response is 201 with that identifier; the collection has one more
    document, with that identifier, the trimmed name, address and message,
    [createdAt] the time of the request and [read = false] (the address,
    which has no white space, is stored as it was sent); and Get Message with
    a path identifier that reads as that [ObjectId] then returns this
    document. *)
Theorem C5_contact_then_get e e2 name email message id w :
  let b := {| body_name := JStr name; body_email := JStr email;
              body_message := JStr message |} in
  let d := [("_id", VOid (newId e)); ("name", VStr (trim name));
            ("email", VStr (trim email)); ("message", VStr (trim message));
            ("createdAt", VDate (now e)); ("read", VBool false)] in
  let s1 := serve (POST_contact b) e w in
  name <> [] -> message <> [] ->
  Regex.matches emailRegex email = true ->
  store_up e w OpInsertOne MESSAGES_COLLECTION = true ->
  existsb (by_id (VOid (newId e))) (messages w) = false ->
  op_ok e2 OpFindOne MESSAGES_COLLECTION = true ->
  ObjectId_parse id = Some (newId e) ->
  fst s1 = {| status := 201;
              json := BCreated true (js "Message sent successfully")
                        (VOid (newId e)) |}
  /\ messages (snd s1) = messages w ++ [d]
  /\ fst (serve (GET_messages_id id) e2 (snd s1)) = res_json (BDoc d)
  /\ field "read" d = Some (VBool false)
  /\ field "email" d = Some (VStr email).
Proof.
  intros b d s1 Hn Hm Hr U X O2 P.
  assert (A : accepted b = true).
  { unfold accepted, b. simpl. rewrite Hr.
    destruct name; [congruence|]. destruct message; [congruence|].
    destruct email; [discriminate Hr|reflexivity]. }
  destruct (postContact_up e name email message w A U X) as (R & M & _ & _ & C).
  fold b in R, M, C. fold s1 in R, M, C. fold d in M.
  split; [exact R|]. split; [exact M|].
  split; [|split; [reflexivity|unfold d; simpl; now rewrite emailRegex_trim]].
  rewrite getMessageById_up by (unfold store_up; now rewrite C, O2).
  rewrite P, M.
  erewrite find_middle; [reflexivity| |].
  - now apply find_none_existsb.
  - unfold by_id, d. simpl. apply codes_eqb_refl.
Qed.

End ApiFacts.

(** ** The properties at sample requests *)

Lemma C1_path_identifier_fallback_witness :
  ObjectId_parse (Deployment := hex_deployment) (js "a") = None
  /\ fst (serve (deployment := hex_deployment) (GET_podcasts_id (js "a"))
            (fair 0 oid1) (start [podcast_a; podcast_b] [] []))
     = res_json (BDoc podcast_a).
Proof.
  split; [reflexivity|].
  exact (proj1 (proj2 (@C1_path_identifier_fallback hex_deployment
                         (fair 0 oid1) (js "a")
                         (start [podcast_a; podcast_b] [] []))
                  eq_refl) eq_refl).
Defined.

(** A name made of spaces is not treated as missing: the request is answered
    201 and a message with an empty name is stored. *)
Lemma C2_whitespace_name_accepted :
  blank (body_name contact_spaces) = true
  /\ status (fst (serve (deployment := hex_deployment)
                    (POST_contact contact_spaces) (fair 5 oid1) (start [] [] [])))
     = 201%Z
  /\ messages (snd (serve (deployment := hex_deployment)
                      (POST_contact contact_spaces) (fair 5 oid1) (start [] [] [])))
     = [[("_id", VOid oid1); ("name", VStr []); ("email", VStr (js "a@b.c"));
         ("message", VStr (js "hi")); ("createdAt", VDate 5);
         ("read", VBool false)]].
Proof. repeat split; reflexivity. Qed.

Lemma C2_missing_field_400_witness :
  truthy (body_message contact_no_message) = false
  /\ serve (deployment := hex_deployment) (POST_contact contact_no_message)
       (fair 5 oid1) (start [] [] [])
     = (res_status_json 400 (BError (js "All fields are required") None),
        start [] [] []).
Proof.
  split; [reflexivity|].
  exact (proj1 (@C2_missing_field_400 hex_deployment (fair 5 oid1)
                  contact_no_message (start [] [] []))
           (or_intror (or_intror eq_refl))).
Defined.

(** List Messages over a store that cannot be reached answers 500, not 503. *)
Lemma C3_list_messages_answers_500 :
  store_up (down 0) (start [] [] []) OpFind MESSAGES_COLLECTION = false
  /\ fst (serve (deployment := hex_deployment) GET_messages (down 0)
            (start [] [] []))
     = res_status_json 500
         (BError (js "Internal server error") (Some (js "connection refused")))
  /\ status (fst (serve (deployment := hex_deployment) GET_messages (down 0)
                    (start [] [] [])))
     <> 503%Z.
Proof. repeat split; try reflexivity. discriminate. Qed.

Lemma C3_store_failure_status_witness :
  store_up (down 0) (start [] [] []) OpFind PODCASTS_COLLECTION = false
  /\ status (fst (serve (deployment := hex_deployment) GET_podcasts (down 0)
                    (start [] [] [])))
     = 503%Z.
Proof.
  split; [reflexivity|].
  exact (proj1 (@C3_store_failure_status hex_deployment (down 0)
                  (start [] [] []))
           eq_refl).
Defined.

Lemma C4_rejected_contact_inserts_nothing_witness :
  status (fst (serve (deployment := hex_deployment)
                 (POST_contact contact_no_message) (fair 5 oid1)
                 (start [] [] [message1])))
  = 400%Z
  /\ messages (snd (serve (deployment := hex_deployment)
                      (POST_contact contact_no_message) (fair 5 oid1)
                      (start [] [] [message1])))
     = [message1].
Proof.
  split; [reflexivity|].
  exact (proj2 (proj2 (@C4_rejected_contact_inserts_nothing hex_deployment
                         (fair 5 oid1) contact_no_message
                         (start [] [] [message1]))
                  eq_refl)).
Defined.

Lemma C5_contact_then_get_witness :
  fst (serve (deployment := hex_deployment) (GET_messages_id hex1) (fair 9 [])
         (snd (serve (deployment := hex_deployment)
                 (POST_contact
                    {| body_name := JStr (js " Ann ");
                       body_email := JStr (js "ann@example.org");
                       body_message := JStr (js "hello ") |})
                 (fair 5 oid1) (start [] [] [message2]))))
  = res_json
      (BDoc [("_id", VOid oid1); ("name", VStr (js "Ann"));
             ("email", VStr (js "ann@example.org"));
             ("message", VStr (js "hello")); ("createdAt", VDate 5);
             ("read", VBool false)]).
Proof.
  refine (proj1 (proj2 (proj2
            (@C5_contact_then_get hex_deployment (fair 5 oid1) (fair 9 [])
               (js " Ann ") (js "ann@example.org") (js "hello ") hex1
               (start [] [] [message2]) _ _ eq_refl eq_refl eq_refl eq_refl
               eq_refl))));
    discriminate.
Defined.

Lemma C6_mark_read_idempotent_witness :
  status (fst (serve (deployment := hex_deployment) (PUT_messages_id_read hex1)
                 (fair 9 [])
                 (snd (serve (deployment := hex_deployment)
                         (PUT_messages_id_read hex1) (fair 5 [])
                         (start [] [] [message2; message1])))))
  = 200%Z.
Proof.
  exact (proj1 (proj2
           (proj1 (@C6_mark_read_idempotent hex_deployment (fair 5 [])
                     (fair 9 []) hex1 (start [] [] [message2; message1])
                     eq_refl eq_refl)
              message1 eq_refl))).
Defined.

Lemma C7_connection_one_way_witness :
  exists w',
    connectDB (down 0) (start [] [] []) = (Throw (js "connection refused"), w')
    /\ isConnected w' = false /\ db w' = None /\ connects w' = 1
    /\ forall e', connect_ok e' = true ->
         exists d w'',
           connectDB e' w' = (Ok d, w'') /\ connected w'' d
           /\ connects w'' = S (connects w').
Proof.
  exact (proj2 (proj2 (proj2 (proj2
           (@C7_connection_one_way hex_deployment (down 0) (start [] [] [])))))
           eq_refl eq_refl).
Defined.

Lemma C8_listings_sorted_descending_witness :
  exists l,
    fst (serve (deployment := hex_deployment) GET_podcasts (fair 0 [])
           (start [podcast_a; podcast_b] [] []))
    = {| status := 200; json := BDocs l |}
    /\ Permutation [podcast_a; podcast_b] l /\ descending "date" l
    /\ ([podcast_a; podcast_b] = [] -> l = []).
Proof.
  exact (proj1 (@C8_listings_sorted_descending hex_deployment (fair 0 [])
                  (start [podcast_a; podcast_b] [] []))
           eq_refl).
Defined.

Lemma C9_health_always_200_witness :
  exists database,
    serve (deployment := hex_deployment) GET_health (down 3) (start [] [] [])
    = ({| status := 200; json := BHealth (js "ok") 3 database |}, start [] [] [])
    /\ (database = js "disconnected" <-> db (start [] [] []) = None).
Proof.
  destruct (@C9_health_always_200 hex_deployment (down 3) (start [] [] []))
    as (database & H1 & _ & _ & H2).
  exists database. split; [exact H1|].
  exact (proj2 (H2 (reachable_start [] [] []))).
Defined.

Lemma C10_mark_read_frame_witness :
  exists l1 l2 d',
    [message1; message2] = l1 ++ message2 :: l2
    /\ List.find (by_id (VStr (js "legacy-7"))) l1 = None
    /\ messages (snd (serve (deployment := hex_deployment)
                        (PUT_messages_id_read (js "legacy-7")) (fair 900 [])
                        (start [] [] [message1; message2])))
       = l1 ++ d' :: l2
    /\ field "read" d' = Some (VBool true)
    /\ field "readAt" d' = Some (VDate 900)
    /\ (forall k, k <> "read" -> k <> "readAt" -> field k d' = field k message2)
    /\ podcasts (snd (serve (deployment := hex_deployment)
                        (PUT_messages_id_read (js "legacy-7")) (fair 900 [])
                        (start [] [] [message1; message2]))) = []
    /\ videos (snd (serve (deployment := hex_deployment)
                      (PUT_messages_id_read (js "legacy-7")) (fair 900 [])
                      (start [] [] [message1; message2]))) = [].
Proof.
  exact (@C10_mark_read_frame hex_deployment (fair 900 []) (js "legacy-7")
           (start [] [] [message1; message2]) message2 eq_refl eq_refl).
Defined.

(** * Further properties of the program *)

(** ** What the operations leave behind *)

Lemma insertOne_messages e d w r w' :
  field "_id" d = None ->
  insertOne e MESSAGES_COLLECTION d w = (r, w') ->
  process w' = process w /\ podcasts w' = podcasts w /\ videos w' = videos w
  /\ match r with
     | Ok id =>
         id = VOid (newId e)
         /\ existsb (by_id (VOid (newId e))) (messages w) = false
         /\ messages w' = messages w ++ [("_id", VOid (newId e)) :: d]
     | Throw _ => messages w' = messages w
     end.
Proof.
  intros Hd. unfold insertOne. rewrite Hd.
  destruct (op_ok e OpInsertOne MESSAGES_COLLECTION); run_monad;
    [|intros H; inversion H; subst; auto].
  change (matches (Some ?v)) with (by_id v).
  destruct (existsb _ (messages w)) eqn:X; intros H; inversion H; subst;
    simpl; repeat split; auto.
Qed.

Lemma updateOne_messages e q upd w r w' :
  updateOne e MESSAGES_COLLECTION q upd w = (r, w') ->
  process w' = process w /\ podcasts w' = podcasts w /\ videos w' = videos w
  /\ match r with
     | Ok n =>
         n = (if existsb (matches q) (messages w) then 1 else 0)
         /\ messages w' = snd (update_first q (set_fields upd) (messages w))
     | Throw _ => messages w' = messages w
     end.
Proof.
  unfold updateOne.
  destruct (op_ok e OpUpdateOne MESSAGES_COLLECTION); run_monad;
    [|intros H; inversion H; subst; auto].
  pose proof (update_first_count q (set_fields upd) (messages w)) as U.
  destruct (update_first q (set_fields upd) (messages w)) as [n l].
  run_monad. intros H; inversion H; subst. auto.
Qed.

Ltac run_route :=
  repeat match goal with
    | |- context [idQuery ?id ?w0] => rewrite (idQuery_run id w0)
    | |- context [findOne ?e ?c ?q ?w0] =>
        let E := fresh "E" in
        destruct (findOne e c q w0) as [[?|?] ?] eqn:E;
        apply findOne_world in E; subst
    | |- context [toArray ?e ?c ?w0] =>
        let E := fresh "E" in
        destruct (toArray e c w0) as [[?|?] ?] eqn:E;
        apply toArray_world in E; subst
    | |- context [countDocuments ?e ?c ?q ?w0] =>
        let E := fresh "E" in
        destruct (countDocuments e c q w0) as [[?|?] ?] eqn:E;
        apply countDocuments_world in E; subst
    | |- context [insertOne ?e MESSAGES_COLLECTION ?d ?w0] =>
        let E := fresh "E" in
        destruct (insertOne e MESSAGES_COLLECTION d w0) as [[?|?] ?] eqn:E;
        (apply insertOne_messages in E; [|reflexivity]);
        destruct E as (? & ? & ? & ?)
    | |- context [updateOne ?e MESSAGES_COLLECTION ?q ?u ?w0] =>
        let E := fresh "E" in
        destruct (updateOne e MESSAGES_COLLECTION q u w0) as [[?|?] ?] eqn:E;
        apply updateOne_messages in E;
        destruct E as (? & ? & ? & ?)
    | |- context [match ?o with Some _ => _ | None => _ end] => destruct o
    | |- context [if ?b then _ else _] => destruct b eqn:?
    end.

Ltac unfold_routes :=
  unfold serve, app, health, getPodcasts, getVideos, getPodcastById,
    getVideoById, postContact, getMessages, getMessageById, markMessageRead,
    debug;
  unfold try_catch, bind.

Section Coverage.

Context {deployment : Deployment}.

(** The podcasts and the videos after a request are those before it. *)
Lemma serve_content r e w :
  podcasts (snd (serve r e w)) = podcasts w
  /\ videos (snd (serve r e w)) = videos w.
Proof.
  destruct r; unfold_routes;
    try (split_connect e w; run_route; simpl; split; congruence).
  destruct (_ || _); [now split|].
  destruct (negb _); [now split|].
  split_connect e w; [|simpl; split; congruence].
  destruct (body_name b), (body_email b), (body_message b);
    unfold call_trim, ret, throw; run_route; simpl; split; congruence.
Qed.

Lemma update_first_ids t q l :
  ids (snd (update_first q
              (set_fields [("read", VBool true); ("readAt", VDate t)]) l))
  = ids l.
Proof.
  induction l as [|d l IH]; simpl; [reflexivity|].
  destruct (matches q d); simpl.
  - destruct (mark_read_fields t d) as (_ & _ & H).
    now rewrite H by discriminate.
  - destruct (update_first q _ l). simpl in *. now rewrite IH.
Qed.

(** The messages after a request: a contact request answered 201 has added
    one document, an update answered 200 has updated the first match, and
    every other request has left them as they were. *)
Lemma serve_messages r e w :
  match r with
  | POST_contact b =>
      (status (fst (serve r e w)) = 201%Z
       /\ exists name email message,
            b = {| body_name := JStr name; body_email := JStr email;
                   body_message := JStr message |}
            /\ existsb (by_id (VOid (newId e))) (messages w) = false
            /\ messages (snd (serve r e w))
               = messages w ++ [contact_document e name email message])
      \/ (status (fst (serve r e w)) <> 201%Z
          /\ messages (snd (serve r e w)) = messages w)
  | PUT_messages_id_read id =>
      (status (fst (serve r e w)) = 200%Z
       /\ messages (snd (serve r e w))
          = snd (update_first
                   (Some match ObjectId_parse id with
                         | Some o => VOid o
                         | None => VStr id
                         end)
                   (set_fields [("read", VBool true); ("readAt", VDate (now e))])
                   (messages w)))
      \/ (status (fst (serve r e w)) <> 200%Z
          /\ messages (snd (serve r e w)) = messages w)
  | _ => messages (snd (serve r e w)) = messages w
  end.
Proof.
  destruct r; unfold_routes;
    try (split_connect e w; run_route; simpl; congruence).
  - destruct (_ || _); [right; split; [discriminate|reflexivity]|].
    destruct (negb _); [right; split; [discriminate|reflexivity]|].
    split_connect e w; [|right; split; [discriminate|simpl; congruence]].
    destruct b as [[| |name|? ?] [| |email|? ?] [| |message|? ?]];
      unfold call_trim, ret, throw; simpl; run_route; simpl;
      try (right; split; [discriminate|simpl; congruence]).
    left. split; [reflexivity|]. exists name, email, message.
    match goal with H : _ /\ _ /\ _ |- _ => destruct H as (_ & X & M) end.
    split; [reflexivity|].
    match goal with H : messages _ = messages w |- _ => rewrite <- H end.
    split; [exact X|exact M].
  - split_connect e w; [|right; split; [discriminate|simpl; congruence]].
    match goal with H : messages _ = messages w |- _ => rename H into Hm end.
    run_route; simpl;
      try (right; split; [discriminate|congruence]);
      match goal with H : _ /\ _ |- _ => destruct H as (N & M) end;
      rewrite <- Hm.
    1, 3: right; split; [discriminate|]; rewrite M;
      apply update_first_missing, find_none_existsb;
      match goal with H : (_ =? 0)%nat = true |- _ => apply Nat.eqb_eq in H end;
      destruct (existsb _ (messages w0)); congruence.
    all: left; split; [reflexivity|exact M].
Qed.

(** X1.  No request changes the podcasts or the videos, and a request other
    than Submit Contact and Mark Message Read leaves the messages as they
    were too, whatever the store answers. *)
Theorem X1_content_is_read_only r e w :
  podcasts (snd (serve r e w)) = podcasts w
  /\ videos (snd (serve r e w)) = videos w
  /\ match r with
     | POST_contact _ | PUT_messages_id_read _ => True
     | _ => messages (snd (serve r e w)) = messages w
     end.
Proof.
  destruct (serve_content r e w) as [P V].
  pose proof (serve_messages r e w) as M.
  repeat split; auto. destruct r; auto.
Qed.

(** X2.  No request removes a message or changes the identifier of one: the
    identifiers of the messages after a request are those before it, in the
    same order, followed by at most one new identifier, the one the driver
    generated for this request. *)
Theorem X2_no_message_is_removed r e w :
  ids (messages (snd (serve r e w))) = ids (messages w)
  \/ ids (messages (snd (serve r e w)))
     = ids (messages w) ++ [Some (VOid (newId e))].
Proof.
  pose proof (serve_messages r e w) as M.
  destruct r; try (left; now rewrite M).
  - destruct M as [(_ & name & email & message & _ & _ & M)|(_ & M)];
      [right|left]; rewrite M; [|reflexivity].
    unfold ids. now rewrite map_app.
  - destruct M as [(_ & M)|(_ & M)]; left; rewrite M;
      [apply update_first_ids|reflexivity].
Qed.

(** X3.  Every request is answered, and each route only with its own
    statuses: the health check 200; the podcast and video listings and the
    debug report 200 or 503; the message listing 200 or 500; the lookups and
    the update 200, 404 or 500; the contact form 201, 400 or 500. *)
Theorem X3_route_statuses r e w :
  In (status (fst (serve r e w))) (statuses r).
Proof.
  destruct r; unfold_routes;
    try (split_connect e w; run_route; simpl; tauto).
  destruct (_ || _); [simpl; tauto|].
  destruct (negb _); [simpl; tauto|].
  split_connect e w; [|simpl; tauto].
  destruct (body_name b), (body_email b), (body_message b);
    unfold call_trim, ret, throw; run_route; simpl; tauto.
Qed.

(** X4.  A contact request adds a message only when it is answered 201: then
    its three values were strings and exactly one document, made of the
    trimmed values, the time of the request and [read = false], was added at
    the end; with any other answer the messages are as they were. *)
Theorem X4_contact_stores_only_on_201 b e w :
  (status (fst (serve (POST_contact b) e w)) = 201%Z ->
   exists name email message,
     b = {| body_name := JStr name; body_email := JStr email;
            body_message := JStr message |}
     /\ messages (snd (serve (POST_contact b) e w))
        = messages w ++ [contact_document e name email message])
  /\ (status (fst (serve (POST_contact b) e w)) <> 201%Z ->
      messages (snd (serve (POST_contact b) e w)) = messages w).
Proof.
  pose proof (serve_messages (POST_contact b) e w) as M. simpl in M.
  split; intros H.
  - destruct M as [(_ & name & email & message & B & _ & M)|(N & _)];
      [eauto|congruence].
  - destruct M as [(S & _)|(_ & M)]; [congruence|exact M].
Qed.

(** X5.  An accepted contact request in which the name, the address or the
    message is not a string (a number, an array, ...) is answered 500 and
    stores nothing; when the name is the value that is not a string and a
    handle can be had, the error message is that of the failed call of
    [trim]. *)
Theorem X5_contact_value_not_a_string b e w :
  accepted b = true ->
  (forall name email message,
      b <> {| body_name := JStr name; body_email := JStr email;
              body_message := JStr message |}) ->
  status (fst (serve (POST_contact b) e w)) = 500%Z
  /\ messages (snd (serve (POST_contact b) e w)) = messages w
  /\ ((forall name, body_name b <> JStr name) ->
      can_connect e w = true ->
      json (fst (serve (POST_contact b) e w))
      = BError (js "Internal server error")
          (Some (js "name.trim is not a function"))).
Proof.
  intros A N.
  pose proof (serve_messages (POST_contact b) e w) as M. simpl in M.
  destruct (postContact_accepted e b w A) as [S _].
  assert (S' : status (fst (serve (POST_contact b) e w)) <> 201%Z).
  { intros H. destruct M as [(_ & name & email & message & B & _)|(X & _)];
      [now apply (N name email message)|congruence]. }
  split; [destruct S; congruence|].
  split; [destruct M as [(? & _)|(_ & M)]; [congruence|exact M]|].
  intros Hn Hc. clear M S S'. revert A.
  unfold accepted. unfold_routes.
  destruct (truthy (body_name b)), (truthy (body_email b)),
    (truthy (body_message b)); simpl; try discriminate.
  intros ->. simpl.
  split_connect e w; [|congruence].
  destruct (body_name b) as [| |name|? ?]; simpl; try reflexivity.
  now destruct (Hn name).
Qed.


(** A request that gets as far as [connectDB] leaves the globals as
    [connectDB] leaves them, and is answered 500 or 503 when no handle can be
    had. *)
Lemma serve_reaches r e w :
  reaches_store r = true ->
  process (snd (serve r e w)) = process (snd (connectDB e w))
  /\ (can_connect e w = false ->
      status (fst (serve r e w)) = 500%Z
      \/ status (fst (serve r e w)) = 503%Z).
Proof.
  destruct r; simpl; try discriminate; intros R; unfold_routes;
    try (split_connect e w; run_route; simpl; split;
         solve [congruence | auto]).
  revert R. unfold accepted.
  destruct (truthy (body_name b)), (truthy (body_email b)),
    (truthy (body_message b)); simpl; try discriminate.
  intros ->. simpl.
  split_connect e w; [|simpl; auto].
  destruct (body_name b), (body_email b), (body_message b);
    unfold call_trim, ret, throw; run_route; simpl; split;
    solve [congruence | auto].
Qed.


(** X6.  Mark Message Read with an identifier that no message has is
    answered 404, "Message not found", and leaves the messages as they
    were. *)
Theorem X6_mark_read_without_match e id w :
  store_up e w OpUpdateOne MESSAGES_COLLECTION = true ->
  List.find (by_id match ObjectId_parse id with
                   | Some o => VOid o
                   | None => VStr id
                   end) (messages w) = None ->
  fst (serve (PUT_messages_id_read id) e w)
  = res_status_json 404 (BError (js "Message not found") None)
  /\ messages (snd (serve (PUT_messages_id_read id) e w)) = messages w.
Proof.
  intros U F.
  destruct (markMessageRead_up e id w U) as (R & M & _).
  apply find_none_existsb in F as X. rewrite X in R.
  split; [exact R|]. rewrite M. now apply update_first_missing.
Qed.


(** X8.  After a request other than the health check that is answered 200,
    201 or 404, the process is connected: [isConnected] is set and [db] holds
    a handle. *)
Theorem X8_answer_means_connected r e w :
  reaches_store r = true ->
  In (status (fst (serve r e w))) [200; 201; 404]%Z ->
  exists d, connected (snd (serve r e w)) d.
Proof.
  intros R S.
  destruct (serve_reaches r e w R) as [P F].
  destruct (connectDB_total e w) as [[_ (d & w1 & E)]|[Hc _]].
  - rewrite E in P. simpl in P.
    apply connectDB_resolves in E as (_ & [Hi Hd] & _).
    exists d. unfold process in P. inversion P as [[H1 H2 H3]].
    split; congruence.
  - exfalso. destruct (F Hc) as [H|H]; rewrite H in S; simpl in S;
      repeat destruct S as [S|S]; try discriminate; auto.
Qed.

(** X9.  Mark Message Read followed by Get Message with the same identifier
    returns the message that matched, with [read = true], [readAt] the time
    of the update, and every other field as it was. *)
Theorem X9_mark_read_then_get e1 e2 id w d :
  store_up e1 w OpUpdateOne MESSAGES_COLLECTION = true ->
  op_ok e2 OpFindOne MESSAGES_COLLECTION = true ->
  List.find (by_id match ObjectId_parse id with
                   | Some o => VOid o
                   | None => VStr id
                   end) (messages w) = Some d ->
  exists d',
    fst (serve (GET_messages_id id) e2
           (snd (serve (PUT_messages_id_read id) e1 w)))
    = res_json (BDoc d')
    /\ field "read" d' = Some (VBool true)
    /\ field "readAt" d' = Some (VDate (now e1))
    /\ forall k, k <> "read" -> k <> "readAt" -> field k d' = field k d.
Proof.
  intros U O F.
  destruct (markMessageRead_up e1 id w U) as (_ & M & _ & _ & C).
  destruct (update_first_found
              (Some match ObjectId_parse id with
                    | Some o => VOid o
                    | None => VStr id
                    end)
              (set_fields [("read", VBool true); ("readAt", VDate (now e1))])
              (messages w) F)
    as (l1 & l2 & _ & H1 & H2 & H3).
  rewrite H3 in M.
  destruct (mark_read_fields (now e1) d) as (F1 & F2 & F3).
  eexists. split; [|split; [exact F1|split; [exact F2|exact F3]]].
  rewrite getMessageById_up by (unfold store_up; now rewrite C, O).
  rewrite M. rewrite find_middle; [reflexivity|exact H1|].
  change (by_id ?v) with (matches (Some v)). now rewrite mark_read_matches.
Qed.

Lemma found_is_listed what (p : doc -> bool) l d k :
  found_or_404 what (List.find p l) = res_json (BDoc d) ->
  In d (sort k (-1) l) /\ p d = true.
Proof.
  destruct (List.find p l) as [d0|] eqn:F; simpl; [|discriminate].
  intros H. inversion H; subst. apply find_some in F as [I P].
  split; [|exact P]. eapply Permutation_in; [apply sort_perm|exact I].
Qed.

(** X10.  A document that a lookup returns is in the listing of its
    collection (when the store answers both requests), and its [_id] is the
    one asked for. *)
Theorem X10_found_is_listed e e' id w d :
  let key := match ObjectId_parse id with
             | Some o => VOid o
             | None => VStr id
             end in
  (store_up e w OpFindOne PODCASTS_COLLECTION = true ->
   store_up e' w OpFind PODCASTS_COLLECTION = true ->
   fst (serve (GET_podcasts_id id) e w) = res_json (BDoc d) ->
   exists l, fst (serve GET_podcasts e' w) = res_json (BDocs l)
             /\ In d l /\ field "_id" d = Some key)
  /\ (store_up e w OpFindOne VIDEOS_COLLECTION = true ->
      store_up e' w OpFind VIDEOS_COLLECTION = true ->
      fst (serve (GET_videos_id id) e w) = res_json (BDoc d) ->
      exists l, fst (serve GET_videos e' w) = res_json (BDocs l)
                /\ In d l /\ field "_id" d = Some key)
  /\ (store_up e w OpFindOne MESSAGES_COLLECTION = true ->
      store_up e' w OpFind MESSAGES_COLLECTION = true ->
      fst (serve (GET_messages_id id) e w) = res_json (BDoc d) ->
      exists l, fst (serve GET_messages e' w) = res_json (BDocs l)
                /\ In d l /\ field "_id" d = Some key).
Proof.
  intros key.
  assert (K : forall v, by_id v d = true -> field "_id" d = Some v).
  { unfold by_id. intros v H. destruct (field "_id" d) as [x|]; [|discriminate].
    apply value_eqb_eq in H. now subst. }
  repeat split; intros U U' H; eexists.
  - rewrite (getPodcasts_up _ _ U'). rewrite (getPodcastById_up _ _ _ U) in H.
    apply found_is_listed with (k := "date") in H as [I P]. auto.
  - rewrite (getVideos_up _ _ U'). rewrite (getVideoById_up _ _ _ U) in H.
    apply found_is_listed with (k := "date") in H as [I P]. auto.
  - rewrite (getMessages_up _ _ U'). rewrite (getMessageById_up _ _ _ U) in H.
    apply found_is_listed with (k := "createdAt") in H as [I P]. auto.
Qed.

Lemma absent_by_id v l :
  (forall d, In d l -> field "_id" d <> Some v) ->
  List.find (by_id v) l = None.
Proof.
  intros H. apply find_none_existsb.
  destruct (existsb (by_id v) l) eqn:X; [|reflexivity].
  apply existsb_exists in X as (d & I & B). exfalso. apply (H d I).
  unfold by_id in B. destruct (field "_id" d) as [x|]; [|discriminate].
  apply value_eqb_eq in B. now subst.
Qed.

(** X11.  A path identifier that reads as an [ObjectId] is looked up as that
    [ObjectId] only: when no document of the collection has it as [_id], the
    lookup is answered 404, also when a document has the path segment itself,
    as a string, as its [_id]. *)
Theorem X11_string_key_is_shadowed e id o w :
  ObjectId_parse id = Some o ->
  (store_up e w OpFindOne PODCASTS_COLLECTION = true ->
   (forall d, In d (podcasts w) -> field "_id" d <> Some (VOid o)) ->
   status (fst (serve (GET_podcasts_id id) e w)) = 404%Z)
  /\ (store_up e w OpFindOne VIDEOS_COLLECTION = true ->
      (forall d, In d (videos w) -> field "_id" d <> Some (VOid o)) ->
      status (fst (serve (GET_videos_id id) e w)) = 404%Z)
  /\ (store_up e w OpFindOne MESSAGES_COLLECTION = true ->
      (forall d, In d (messages w) -> field "_id" d <> Some (VOid o)) ->
      status (fst (serve (GET_messages_id id) e w)) = 404%Z)
  /\ (store_up e w OpUpdateOne MESSAGES_COLLECTION = true ->
      (forall d, In d (messages w) -> field "_id" d <> Some (VOid o)) ->
      status (fst (serve (PUT_messages_id_read id) e w)) = 404%Z).
Proof.
  intros P. repeat split; intros U A; apply absent_by_id in A.
  - now rewrite getPodcastById_up, P, A.
  - now rewrite getVideoById_up, P, A.
  - now rewrite getMessageById_up, P, A.
  - destruct (markMessageRead_up e id w U) as (R & _). rewrite R, P.
    apply find_none_existsb in A. now rewrite A.
Qed.

(** The debug report of a store that answers. *)
Lemma debug_report e w :
  debug_up e w = true ->
  exists info,
    fst (serve GET_debug e w) = res_json (BDebug info)
    /\ connection_database info = DB_NAME
    /\ connection_connected info = true
    /\ stats_podcastCount info = List.length (podcasts w)
    /\ stats_videoCount info = List.length (videos w)
    /\ samplePodcast info = sample_of (hd_error (podcasts w))
    /\ sampleVideo info = sample_of (hd_error (videos w)).
Proof.
  unfold debug_up. unfold_routes. unfold countDocuments, findOne.
  intros H. repeat (apply andb_prop in H as [H ?]).
  run_monad. split_connect e w; [|congruence].
  repeat match goal with Ho : op_ok _ _ _ = true |- _ => rewrite Ho; clear Ho end.
  simpl. eexists. split; [reflexivity|]. simpl.
  match goal with Hc : connected _ _ |- _ => destruct Hc as [Hi _] end.
  repeat match goal with Hd : _ w0 = _ w |- _ => rewrite Hd; clear Hd end.
  rewrite !filter_all.
  repeat split; auto; f_equal.
  - now destruct (podcasts w).
  - now destruct (videos w).
Qed.

(** X12.  When the store answers, the debug report is sent with status 200;
    it counts all the podcasts and all the videos, reports the process as
    connected, names the database ('Assets' when [DB_NAME] is not set or
    empty), and its two samples are the [_id] and the field names of the first
    document of each collection, [null] exactly when the collection is
    empty. *)
Theorem X12_debug_report e w :
  debug_up e w = true ->
  exists info,
    fst (serve GET_debug e w) = {| status := 200; json := BDebug info |}
    /\ connection_connected info = true
    /\ stats_podcastCount info = List.length (podcasts w)
    /\ stats_videoCount info = List.length (videos w)
    /\ (samplePodcast info = None <-> podcasts w = [])
    /\ (sampleVideo info = None <-> videos w = [])
    /\ (forall d l, podcasts w = d :: l ->
          samplePodcast info
          = Some {| sample_id := field "_id" d; sample_keys := keys d |})
    /\ (forall d l, videos w = d :: l ->
          sampleVideo info
          = Some {| sample_id := field "_id" d; sample_keys := keys d |})
    /\ (connection_database info = js "Assets"
        <-> env_DB_NAME = None \/ env_DB_NAME = Some []
            \/ env_DB_NAME = Some (js "Assets")).
Proof.
  intros U. destruct (debug_report e w U) as (info & R & D & C & N1 & N2 & S1 & S2).
  exists info. rewrite S1, S2, D.
  split; [exact R|]. split; [exact C|]. split; [exact N1|]. split; [exact N2|].
  split; [destruct (podcasts w); simpl; split; congruence|].
  split; [destruct (videos w); simpl; split; congruence|].
  split; [intros d l ->; reflexivity|].
  split; [intros d l ->; reflexivity|].
  unfold DB_NAME. destruct env_DB_NAME as [[|c s]|]; split; auto.
  - intros ->. auto.
  - intros [H|[H|H]]; try discriminate. now inversion H.
Qed.

End Coverage.

(** ** The address pattern and [trim] *)

Lemma no_at_count a :
  forallb not_ws_at a = true -> count_occ N.eq_dec a 64%N = 0.
Proof.
  induction a as [|c a IH]; simpl; [reflexivity|].
  intros [H1 H2]%andb_prop. unfold not_ws_at in H1.
  apply andb_prop in H1 as [_ H1]. apply negb_true_iff, N.eqb_neq in H1.
  destruct (N.eq_dec c 64); [congruence|auto].
Qed.

(** X13.  The address pattern accepts exactly the strings made of a local
    part, [@], a domain, a dot and an ending, where the three parts are not
    empty and hold neither white space nor [@].  So an accepted address holds
    exactly one [@] and no white space, and [trim] leaves it as it is. *)
Theorem X13_emailRegex_accepts s :
  (Regex.matches emailRegex s = true
   <-> exists a b c,
         s = a ++ [64%N] ++ b ++ [46%N] ++ c
         /\ a <> [] /\ b <> [] /\ c <> []
         /\ forallb not_ws_at a = true /\ forallb not_ws_at b = true
         /\ forallb not_ws_at c = true)
  /\ (Regex.matches emailRegex s = true ->
      count_occ N.eq_dec s 64%N = 1
      /\ forallb (fun c => negb (is_ws c)) s = true
      /\ trim s = s).
Proof.
  split; [apply emailRegex_shape|].
  intros H. split; [|split; [|now apply emailRegex_trim]];
    apply emailRegex_shape in H
      as (a & b & c & -> & _ & _ & _ & Ha & Hb & Hc).
  - rewrite !count_occ_app, (no_at_count _ Ha), (no_at_count _ Hb),
      (no_at_count _ Hc). reflexivity.
  - rewrite !forallb_app, (not_ws_at_no_ws _ Ha), (not_ws_at_no_ws _ Hb),
      (not_ws_at_no_ws _ Hc). reflexivity.
Qed.

Lemma trimStart_head s :
  trimStart s = [] \/ exists c t, trimStart s = c :: t /\ is_ws c = false.
Proof.
  induction s as [|c s IH]; simpl; [now left|].
  destruct (is_ws c) eqn:E; [exact IH|right; eauto].
Qed.

Lemma trimStart_app_last l c :
  is_ws c = false -> trimStart (l ++ [c]) = trimStart l ++ [c].
Proof.
  intros H. induction l as [|x l IH]; simpl.
  - now rewrite H.
  - destruct (is_ws x); [exact IH|reflexivity].
Qed.

(** What [trim] returns has no white space at either end. *)
Lemma trim_trimmed s : trimmed (trim s) = true.
Proof.
  unfold trim, trimEnd.
  destruct (trimStart_head s) as [->|(c & t & -> & Hc)]; [reflexivity|].
  simpl rev at 2. rewrite (trimStart_app_last _ _ Hc), rev_app_distr. simpl.
  rewrite Hc. simpl.
  destruct (trimStart_head (rev t)) as [->|(c' & u & -> & Hc')]; simpl.
  - now rewrite Hc.
  - destruct (rev u ++ [c']) eqn:E; [now destruct (rev u)|].
    rewrite <- E. now rewrite last_last, Hc'.
Qed.

(** [trim] does nothing to a string that has no white space at either end. *)
Lemma trimmed_trim s : trimmed s = true -> trim s = s.
Proof.
  destruct s as [|c s]; [reflexivity|].
  unfold trimmed. intros [H1 H2]%andb_prop.
  apply negb_true_iff in H1, H2.
  unfold trim, trimEnd. simpl trimStart at 2. rewrite H1.
  destruct (exists_last (l := c :: s)) as (l & x & E); [discriminate|].
  rewrite E in *. rewrite last_last in H2.
  rewrite rev_app_distr. simpl. rewrite H2. simpl.
  now rewrite rev_involutive.
Qed.

(** [trim] gives the empty string exactly on the empty string and on white
    space only. *)
Lemma trim_empty_iff s : trim s = [] <-> forallb is_ws s = true.
Proof.
  split; [|apply trim_all_ws].
  induction s as [|c s IH]; [reflexivity|].
  intros H. pose proof (trim_empty_head _ _ H) as Hc. simpl. rewrite Hc. simpl.
  apply IH. unfold trim in *. simpl in H. now rewrite Hc in H.
Qed.

Section Composition.

Context {deployment : Deployment}.

(** X14.  The values of a stored contact message: the name and the message
    are stored without white space at either end, and empty exactly when the
    submitted value was made of white space only; the address is stored as it
    was sent. *)
Theorem X14_stored_values_are_trimmed b e w :
  status (fst (serve (POST_contact b) e w)) = 201%Z ->
  exists name email message stored_name stored_message d,
    b = {| body_name := JStr name; body_email := JStr email;
           body_message := JStr message |}
    /\ messages (snd (serve (POST_contact b) e w)) = messages w ++ [d]
    /\ field "name" d = Some (VStr stored_name)
    /\ field "email" d = Some (VStr email)
    /\ field "message" d = Some (VStr stored_message)
    /\ trimmed stored_name = true /\ trimmed stored_message = true
    /\ (stored_name = [] <-> forallb is_ws name = true)
    /\ (stored_message = [] <-> forallb is_ws message = true).
Proof.
  intros S.
  assert (A : accepted b = true).
  { destruct (accepted b) eqn:A; [reflexivity|].
    destruct (postContact_rejected e b w A) as [error H].
    rewrite H in S. discriminate. }
  pose proof (serve_messages (POST_contact b) e w) as M. simpl in M.
  destruct M as [(_ & name & email & message & -> & _ & M)|(N & _)];
    [|congruence].
  exists name, email, message, (trim name), (trim message),
    (contact_document e name email message).
  unfold accepted in A. simpl in A. apply andb_prop in A as [_ A].
  assert (E : trim email = email) by now apply emailRegex_trim.
  split; [reflexivity|]. split; [exact M|].
  unfold contact_document. simpl. rewrite E.
  repeat split; auto using trim_trimmed; apply trim_empty_iff; auto.
Qed.

(** X15.  A contact message that has been stored is in the next listing of
    the messages, which has one message more than were there before and is
    in descending order of [createdAt]. *)
Theorem X15_contact_then_list e e2 name email message w :
  let b := {| body_name := JStr name; body_email := JStr email;
              body_message := JStr message |} in
  accepted b = true ->
  store_up e w OpInsertOne MESSAGES_COLLECTION = true ->
  existsb (by_id (VOid (newId e))) (messages w) = false ->
  op_ok e2 OpFind MESSAGES_COLLECTION = true ->
  exists l,
    fst (serve GET_messages e2 (snd (serve (POST_contact b) e w)))
    = res_json (BDocs l)
    /\ In (contact_document e name email message) l
    /\ List.length l = S (List.length (messages w))
    /\ descending "createdAt" l.
Proof.
  intros b A U X O.
  destruct (postContact_up e name email message w A U X) as (_ & M & _ & _ & C).
  fold b in M, C.
  eexists. rewrite getMessages_up by (unfold store_up; now rewrite C, O).
  split; [reflexivity|]. rewrite M.
  split; [|split; [|apply sort_descending]].
  - eapply Permutation_in; [apply sort_perm|].
    apply in_or_app. right. now left.
  - rewrite <- (Permutation_length (sort_perm "createdAt" (-1) _)).
    rewrite length_app. simpl. apply Nat.add_1_r.
Qed.

End Composition.

(** X16.  Calls of [connectDB] that all get to their [await] before any of
    them resumes each call [client.connect()]: after [n] of them the process
    is still not connected and [client.connect()] has been called [n] more
    times. *)
Theorem X16_entries_before_resume n w :
  isConnected w = false ->
  connects (interleave (repeat Enters n) w) = connects w + n
  /\ isConnected (interleave (repeat Enters n) w) = false
  /\ db (interleave (repeat Enters n) w) = db w.
Proof.
  unfold interleave. revert w.
  induction n as [|n IH]; intros w H; cbn [repeat fold_left].
  - rewrite Nat.add_0_r. auto.
  - assert (E : connect_step w Enters
                = {| db := db w; isConnected := isConnected w;
                     connects := S (connects w); podcasts := podcasts w;
                     videos := videos w; messages := messages w |}).
    { unfold connect_step, connectDB_enter. run_monad. now rewrite H. }
    rewrite E.
    destruct (IH {| db := db w; isConnected := isConnected w;
                    connects := S (connects w); podcasts := podcasts w;
                    videos := videos w; messages := messages w |} H)
      as (I1 & I2 & I3).
    rewrite I1, I2, I3. simpl. repeat split; auto.
Qed.

(** ** The further properties at sample requests *)

Lemma X4_contact_stores_only_on_201_witness :
  messages (snd (serve (deployment := hex_deployment)
                   (POST_contact contact_no_message) (fair 5 oid1)
                   (start [] [] [message1])))
  = [message1].
Proof.
  refine (proj2 (@X4_contact_stores_only_on_201 hex_deployment
                   contact_no_message (fair 5 oid1) (start [] [] [message1]))
            _).
  intros H. vm_compute in H. discriminate.
Defined.

Lemma X5_contact_value_not_a_string_witness :
  status (fst (serve (deployment := hex_deployment)
                 (POST_contact contact_number_name) (fair 5 oid1)
                 (start [] [] [])))
  = 500%Z.
Proof.
  refine (proj1 (@X5_contact_value_not_a_string hex_deployment
                   contact_number_name (fair 5 oid1) (start [] [] [])
                   eq_refl _)).
  intros name email message H. discriminate.
Defined.

Lemma X6_mark_read_without_match_witness :
  fst (serve (deployment := hex_deployment)
         (PUT_messages_id_read (js "nobody")) (fair 5 [])
         (start [] [] [message1]))
  = res_status_json 404 (BError (js "Message not found") None).
Proof.
  exact (proj1 (@X6_mark_read_without_match hex_deployment (fair 5 [])
                  (js "nobody") (start [] [] [message1]) eq_refl eq_refl)).
Defined.


Lemma X8_answer_means_connected_witness :
  exists d,
    connected (snd (serve (deployment := hex_deployment)
                      (GET_podcasts_id (js "zzz")) (fair 0 [])
                      (start [] [] [])))
      d.
Proof.
  exact (@X8_answer_means_connected hex_deployment (GET_podcasts_id (js "zzz"))
           (fair 0 []) (start [] [] []) eq_refl
           (or_intror (or_intror (or_introl eq_refl)))).
Defined.

Lemma X9_mark_read_then_get_witness :
  exists d',
    fst (serve (deployment := hex_deployment) (GET_messages_id hex1) (fair 9 [])
           (snd (serve (deployment := hex_deployment)
                   (PUT_messages_id_read hex1) (fair 5 [])
                   (start [] [] [message2; message1]))))
    = res_json (BDoc d')
    /\ field "read" d' = Some (VBool true)
    /\ field "readAt" d' = Some (VDate 5)
    /\ forall k, k <> "read" -> k <> "readAt" -> field k d' = field k message1.
Proof.
  exact (@X9_mark_read_then_get hex_deployment (fair 5 []) (fair 9 []) hex1
           (start [] [] [message2; message1]) message1 eq_refl eq_refl eq_refl).
Defined.

Lemma X10_found_is_listed_witness :
  exists l,
    fst (serve (deployment := hex_deployment) GET_podcasts (fair 1 [])
           (start [podcast_a; podcast_b] [] []))
    = res_json (BDocs l)
    /\ In podcast_a l /\ field "_id" podcast_a = Some (VStr (js "a")).
Proof.
  exact (proj1 (@X10_found_is_listed hex_deployment (fair 0 []) (fair 1 [])
                  (js "a") (start [podcast_a; podcast_b] [] []) podcast_a)
           eq_refl eq_refl eq_refl).
Defined.

Lemma X11_string_key_is_shadowed_witness :
  field "_id" podcast_hex = Some (VStr hex1)
  /\ status (fst (serve (deployment := hex_deployment) (GET_podcasts_id hex1)
                    (fair 0 []) (start [podcast_hex] [] [])))
     = 404%Z.
Proof.
  split; [reflexivity|].
  refine (proj1 (@X11_string_key_is_shadowed hex_deployment (fair 0 []) hex1
                   oid1 (start [podcast_hex] [] []) eq_refl)
            eq_refl _).
  intros d [<-|[]]. discriminate.
Defined.

Lemma X12_debug_report_witness :
  exists info,
    fst (serve (deployment := hex_deployment) GET_debug (fair 0 [])
           (start [podcast_a; podcast_b] [] []))
    = {| status := 200; json := BDebug info |}
    /\ connection_connected info = true
    /\ stats_podcastCount info = 2
    /\ stats_videoCount info = 0
    /\ (samplePodcast info = None <-> [podcast_a; podcast_b] = [])
    /\ (sampleVideo info = None <-> @nil doc = [])
    /\ (forall d l, [podcast_a; podcast_b] = d :: l ->
          samplePodcast info
          = Some {| sample_id := field "_id" d; sample_keys := keys d |})
    /\ (forall d l, @nil doc = d :: l ->
          sampleVideo info
          = Some {| sample_id := field "_id" d; sample_keys := keys d |})
    /\ (connection_database info = js "Assets"
        <-> @None jsstring = None \/ @None jsstring = Some []
            \/ None = Some (js "Assets")).
Proof.
  exact (@X12_debug_report hex_deployment (fair 0 [])
           (start [podcast_a; podcast_b] [] []) eq_refl).
Defined.

Lemma X13_emailRegex_accepts_witness :
  count_occ N.eq_dec (js "ann@example.org") 64%N = 1
  /\ forallb (fun c => negb (is_ws c)) (js "ann@example.org") = true
  /\ trim (js "ann@example.org") = js "ann@example.org".
Proof.
  exact (proj2 (X13_emailRegex_accepts (js "ann@example.org")) eq_refl).
Defined.

Lemma X14_stored_values_are_trimmed_witness :
  exists name email message stored_name stored_message d,
    contact_spaces
    = {| body_name := JStr name; body_email := JStr email;
         body_message := JStr message |}
    /\ messages (snd (serve (deployment := hex_deployment)
                        (POST_contact contact_spaces) (fair 5 oid1)
                        (start [] [] [])))
       = [] ++ [d]
    /\ field "name" d = Some (VStr stored_name)
    /\ field "email" d = Some (VStr email)
    /\ field "message" d = Some (VStr stored_message)
    /\ trimmed stored_name = true /\ trimmed stored_message = true
    /\ (stored_name = [] <-> forallb is_ws name = true)
    /\ (stored_message = [] <-> forallb is_ws message = true).
Proof.
  exact (@X14_stored_values_are_trimmed hex_deployment contact_spaces
           (fair 5 oid1) (start [] [] []) eq_refl).
Defined.

Lemma X15_contact_then_list_witness :
  exists l,
    fst (serve (deployment := hex_deployment) GET_messages (fair 9 [])
           (snd (serve (deployment := hex_deployment)
                   (POST_contact
                      {| body_name := JStr (js "Ann");
                         body_email := JStr (js "ann@example.org");
                         body_message := JStr (js "hello") |})
                   (fair 5 oid1) (start [] [] [message2]))))
    = res_json (BDocs l)
    /\ In (contact_document (fair 5 oid1) (js "Ann") (js "ann@example.org")
             (js "hello")) l
    /\ List.length l = 2
    /\ descending "createdAt" l.
Proof.
  exact (@X15_contact_then_list hex_deployment (fair 5 oid1) (fair 9 [])
           (js "Ann") (js "ann@example.org") (js "hello")
           (start [] [] [message2]) eq_refl eq_refl eq_refl eq_refl).
Defined.

Lemma X16_entries_before_resume_witness :
  connects (interleave (repeat Enters 3) (start [] [] [])) = 0 + 3
  /\ isConnected (interleave (repeat Enters 3) (start [] [] [])) = false
  /\ db (interleave (repeat Enters 3) (start [] [] [])) = None.
Proof.
  exact (X16_entries_before_resume 3 (start [] [] []) eq_refl).
Defined.
